(** * humanencoding: binary data to dictionary words, and back

    A shallow embedding of [humanencoding/encoder.py] and the properties of
    its encoder and decoder.

    The module is Python 2 code: [encode] appends the [str] ['\0'] to its
    byte argument, the tests decode a checksum whose CRC-32 has its top bit
    set, and both only work where [bytes] is [str] and [binascii.crc32]
    returns a signed 32-bit integer.  The embedding follows that dialect:
    byte strings are [list byte], words are [string], Python integers are
    [Z], and an exception is a value of type [exn]. *)

From Stdlib Require Import ZArith List String Ascii Bool Lia.
From Stdlib Require Import Strings.Byte.
Import ListNotations.

Local Open Scope string_scope.
Local Open Scope list_scope.
Local Open Scope Z_scope.

(** ** Exceptions and the result of a call *)

(** The texts [HumanEncodingError] is raised with, one per [raise] site. *)
Inductive message : Type :=
| Invalid_word_list_module (version : Z)
| No_words_attribute
| Invalid_size (found : Z)
| Invalid_chunk
| Invalid_word (word : string)
| Invalid_CRC32_checksum.

Inductive exn : Type :=
| HumanEncodingError (m : message)
| NameError (name : string)
| IndexError
| TypeError
| struct_error.

Inductive result (A : Type) : Type :=
| Ok (a : A)
| Raise (e : exn).
Arguments Ok {A} a.
Arguments Raise {A} e.

Definition bind {A B : Type} (r : result A) (k : A -> result B) : result B :=
  match r with
  | Ok a => k a
  | Raise e => Raise e
  end.

Notation "x <- r ;; k" := (bind r (fun x => k))
  (at level 61, r at next level, right associativity).

(** Reading a name that neither the module nor the builtins bind. *)
Definition unbound_name {A : Type} (name : string) : result A :=
  Raise (NameError name).

(** ** Module constants *)

Definition DEFAULT_WORDLIST_VERSION : Z := 1.
Definition CHECKSUM_WORD : string := "check".
Definition PADDING_WORD : string := "null".
Definition WORDLIST_SIZE : Z := 65536.

(** ** Byte strings *)

Definition bytes : Type := list byte.

Definition byte_to_Z (b : byte) : Z := Z.of_N (Byte.to_N b).

Definition byte_of_Z (z : Z) : byte :=
  match Byte.of_N (Z.to_N z) with
  | Some b => b
  | None => x00
  end.

(** [s[i:j]] for [0 <= i <= j]. *)
Definition slice {A : Type} (s : list A) (i j : nat) : list A :=
  firstn (j - i) (skipn i s).

(** [range(0, stop, 2)]. *)
Definition range_step2 (stop : nat) : list nat :=
  map (fun k => (2 * k)%nat) (seq 0 (Nat.div2 (stop + 1))).

(** ** [struct.pack] and [struct.unpack] for the formats the module uses *)

Definition unpack_H (b : bytes) : result Z :=
  match b with
  | [b0; b1] => Ok (byte_to_Z b0 + 256 * byte_to_Z b1)
  | _ => Raise struct_error
  end.

Definition pack_H (i : Z) : result bytes :=
  if (0 <=? i) && (i <=? 65535)
  then Ok [byte_of_Z (i mod 256); byte_of_Z (i / 256)]
  else Raise struct_error.

Definition pack_i (x : Z) : result bytes :=
  if (- 2 ^ 31 <=? x) && (x <? 2 ^ 31)
  then let u := x mod 2 ^ 32 in
       Ok [byte_of_Z (u mod 256); byte_of_Z ((u / 256) mod 256);
           byte_of_Z ((u / 65536) mod 256); byte_of_Z (u / 16777216)]
  else Raise struct_error.

Definition unpack_i (b : bytes) : result Z :=
  match b with
  | [b0; b1; b2; b3] =>
      let u := byte_to_Z b0 + 256 * byte_to_Z b1
               + 65536 * byte_to_Z b2 + 16777216 * byte_to_Z b3 in
      Ok (if 2 ^ 31 <=? u then u - 2 ^ 32 else u)
  | _ => Raise struct_error
  end.

(** ** [binascii.crc32]

    The CRC-32 of zlib, bit by bit with the reflected polynomial; Python 2
    returns it as a signed 32-bit integer. *)

Definition CRC32_POLY : Z := 0xEDB88320.

Definition crc32_shift (c : Z) : Z :=
  Z.lxor (Z.shiftr c 1) (if Z.odd c then CRC32_POLY else 0).

Definition crc32_update (c : Z) (b : byte) : Z :=
  Nat.iter 8 crc32_shift (Z.lxor c (byte_to_Z b)).

Definition crc32_register (data : bytes) : Z :=
  fold_left crc32_update data 0xFFFFFFFF.

Definition crc32_unsigned (data : bytes) : Z :=
  Z.lxor (crc32_register data) 0xFFFFFFFF.

Definition crc32 (data : bytes) : Z :=
  let u := crc32_unsigned data in
  if 2 ^ 31 <=? u then u - 2 ^ 32 else u.

(** ** [str.lower], [str.split] and [str.join] on ASCII text *)

Definition ascii_lower (c : ascii) : ascii :=
  let n := nat_of_ascii c in
  if ((65 <=? n) && (n <=? 90))%nat then ascii_of_nat (n + 32) else c.

Fixpoint lower (s : string) : string :=
  match s with
  | EmptyString => EmptyString
  | String c r => String (ascii_lower c) (lower r)
  end.

Definition is_space (c : ascii) : bool :=
  let n := nat_of_ascii c in
  ((n =? 32) || ((9 <=? n) && (n <=? 13)))%nat.

(** [split_from cur s]: the words of [s], the first one prefixed by the
    characters [cur] already read. *)
Fixpoint split_from (cur : string) (s : string) : list string :=
  match s with
  | EmptyString => match cur with EmptyString => [] | _ => [cur] end
  | String c r =>
      if is_space c
      then match cur with
           | EmptyString => split_from EmptyString r
           | _ => cur :: split_from EmptyString r
           end
      else split_from (cur ++ String c EmptyString)%string r
  end.

Definition split (s : string) : list string := split_from EmptyString s.

Definition join (sep : string) (l : list string) : string :=
  String.concat sep l.

(** ** The cached wordlist *)

(** What [importlib.import_module] finds for a version: nothing (any
    exception of the import), or a module with or without a [words]
    attribute.  The wordlist modules are data outside this file. *)
Definition package : Type := Z -> option (option (list string)).

(** The module's global state. *)
Record state : Type := { _wordlist : list string }.

Definition truthy {A : Type} (l : list A) : bool :=
  match l with [] => false | _ => true end.

Definition len {A : Type} (l : list A) : Z := Z.of_nat (List.length l).

Definition lazily_load_wordlist (pkg : package) (version : Z) (st : state)
  : result (list string) * state :=
  if truthy (_wordlist st) then (Ok (_wordlist st), st)
  else
    match pkg version with
    | None =>
        (Raise (HumanEncodingError (Invalid_word_list_module version)), st)
    | Some wordlist_module =>
        match wordlist_module with
        | None => (Raise (HumanEncodingError No_words_attribute), st)
        | Some words =>
            if negb (truthy words)
            then (Raise (HumanEncodingError No_words_attribute), st)
            else if negb (len words =? WORDLIST_SIZE)
            then (Raise (HumanEncodingError (Invalid_size (len words))), st)
            else (Ok words, {| _wordlist := words |})
        end
    end.

(** ** Chunks and words *)

Definition _bytes_to_int (b : bytes) : result Z := unpack_H b.

(** [wordlist[i]] for [0 <= i]. *)
Definition getitem {A : Type} (l : list A) (i : Z) : result A :=
  match nth_error l (Z.to_nat i) with
  | Some a => Ok a
  | None => Raise IndexError
  end.

(** The handler of [IndexError] formats its message with [word], a name
    the function does not bind. *)
Definition _chunk_to_word (chunk : bytes) (wordlist : list string)
  : result string :=
  i <- _bytes_to_int chunk ;;
  match getitem wordlist i with
  | Raise IndexError =>
      word <- (unbound_name "word" : result string) ;;
      Raise (HumanEncodingError Invalid_chunk)
  | r => r
  end.

Definition _int_to_bytes (i : Z) : result bytes := pack_H i.

(** [wordlist.index(word)]: the first position of [word], if any. *)
Fixpoint index (word : string) (wordlist : list string) : option nat :=
  match wordlist with
  | [] => None
  | w :: rest =>
      if String.eqb w word then Some O
      else option_map S (index word rest)
  end.

Definition _word_to_chunk (word : string) (wordlist : list string)
  : result bytes :=
  match index word wordlist with
  | Some i => _int_to_bytes (Z.of_nat i)
  | None => Raise (HumanEncodingError (Invalid_word word))
  end.

(** ** Negative indices and slices of a list *)

(** [l[-k]] for [0 < k]. *)
Definition getitem_neg {A : Type} (l : list A) (k : nat) : result A :=
  if (k <=? List.length l)%nat
  then match nth_error l (List.length l - k) with
       | Some a => Ok a
       | None => Raise IndexError
       end
  else Raise IndexError.

(** [l[-k:]] and [l[:-k]] for [0 < k]. *)
Definition slice_from_neg {A : Type} (l : list A) (k : nat) : list A :=
  skipn (List.length l - k) l.

Definition slice_to_neg {A : Type} (l : list A) (k : nat) : list A :=
  firstn (List.length l - k) l.

(** ** [encode] *)

(** The [for] loop of [encode] over [range(0, data_len, 2)]. *)
Fixpoint encode_loop (wordlist : list string) (binary_data : bytes)
    (range : list nat) (encoded_output : list string) : result (list string) :=
  match range with
  | [] => Ok encoded_output
  | i :: range' =>
      let chunk := slice binary_data i (i + 2) in
      word <- _chunk_to_word chunk wordlist ;;
      encode_loop wordlist binary_data range' (encoded_output ++ [word])
  end.

(** The list [encoded_output] that [encode] has built when it reaches its
    [return] statement. *)
Definition encoded_output (wordlist : list string) (binary_data : bytes)
    (checksum : bool) : result (list string) :=
  let data_len := List.length binary_data in
  let padded := (data_len mod 2 =? 1)%nat in
  let binary_data := if padded then binary_data ++ [x00] else binary_data in
  let data_len := if padded then (data_len + 1)%nat else data_len in
  encoded_output <- encode_loop wordlist binary_data (range_step2 data_len) [] ;;
  let encoded_output :=
    if padded then encoded_output ++ [PADDING_WORD] else encoded_output in
  if checksum then
    let encoded_output := encoded_output ++ [CHECKSUM_WORD] in
    let checksum_int :=
      crc32 (if padded then slice_to_neg binary_data 1 else binary_data) in
    checksum_bytes <- pack_i checksum_int ;;
    word0 <- _chunk_to_word (slice checksum_bytes 0 2) wordlist ;;
    let encoded_output := encoded_output ++ [word0] in
    word1 <- _chunk_to_word (slice checksum_bytes 2 4) wordlist ;;
    Ok (encoded_output ++ [word1])
  else Ok encoded_output.

(** What [encode] may return: one string or the list of words. *)
Inductive words : Type :=
| Str (s : string)
| Words (l : list string).

(** The [return] statement tests [string], not the parameter
    [return_string]; the module binds no such name. *)
Definition encode (pkg : package) (binary_data : bytes) (version : Z)
    (checksum : bool) (return_string : bool) (st : state)
  : result words * state :=
  match lazily_load_wordlist pkg version st with
  | (Raise e, st') => (Raise e, st')
  | (Ok wordlist, st') =>
      (encoded_output <- encoded_output wordlist binary_data checksum ;;
       string <- (unbound_name "string" : result bool) ;;
       Ok (if string then Str (join " " encoded_output)
           else Words encoded_output),
       st')
  end.

(** ** [decode] *)

(** The [for] loop of [decode]. *)
Fixpoint decode_loop (wordlist : list string) (words : list string)
    (output : bytes) : result bytes :=
  match words with
  | [] => Ok output
  | word :: words' =>
      chunk <- _word_to_chunk word wordlist ;;
      decode_loop wordlist words' (output ++ chunk)
  end.

(** The body of [decode] once the wordlist is loaded and [words] is a list. *)
Definition decode_words (wordlist : list string) (words : list string)
  : result bytes :=
  let words := map lower words in
  marker <- (if (3 <? len words) then getitem_neg words 3 else Ok "") ;;
  let stripped := (3 <? len words) && String.eqb marker CHECKSUM_WORD in
  let checksum_words := if stripped then slice_from_neg words 2 else [] in
  let words := if stripped then slice_to_neg words 3 else words in
  last_word <- getitem_neg words 1 ;;
  let is_padded := String.eqb last_word PADDING_WORD in
  let words := if is_padded then slice_to_neg words 1 else words in
  output <- decode_loop wordlist words [] ;;
  let output := if is_padded then slice_to_neg output 1 else output in
  if truthy checksum_words then
    word0 <- getitem checksum_words 0 ;;
    checksum_packed <- _word_to_chunk word0 wordlist ;;
    word1 <- getitem checksum_words 1 ;;
    chunk1 <- _word_to_chunk word1 wordlist ;;
    let checksum_packed := checksum_packed ++ chunk1 in
    checksum_unpacked <- unpack_i checksum_packed ;;
    if negb (checksum_unpacked =? crc32 output)
    then Raise (HumanEncodingError Invalid_CRC32_checksum)
    else Ok output
  else Ok output.

Definition decode (pkg : package) (words : words) (version : Z) (st : state)
  : result bytes * state :=
  match lazily_load_wordlist pkg version st with
  | (Raise e, st') => (Raise e, st')
  | (Ok wordlist, st') =>
      let words := match words with Str s => split s | Words l => l end in
      (decode_words wordlist words, st')
  end.

(** ** A wordlist to run the code on *)

(** Modelled from the spec: the package's data module [wordlist_v1] (the
    65536 reference words) is not part of the sources.  The five words that
    the literal scenarios of the specification place are kept at their
    indices; every other index holds a four-letter placeholder over [a]..[p]
    that spells the index in base 16.  Neither [null] nor [check] occurs. *)
Definition letter (d : Z) : ascii := ascii_of_N (Z.to_N (97 + d)).

Definition placeholder (i : Z) : string :=
  String (letter (i / 4096))
    (String (letter ((i / 256) mod 16))
       (String (letter ((i / 16) mod 16))
          (String (letter (i mod 16)) EmptyString))).

Definition sample_word (i : Z) : string :=
  if i =? 97 then "abilene"
  else if i =? 25972 then "handset"
  else if i =? 29811 then "interview"
  else if i =? 32268 then "laughingly"
  else if i =? 55423 then "sterility"
  else placeholder i.

Fixpoint count_from (start : Z) (n : nat) : list Z :=
  match n with
  | O => []
  | S n' => start :: count_from (start + 1) n'
  end.

Definition sample_wordlist : list string :=
  map sample_word (count_from 0 (Z.to_nat WORDLIST_SIZE)).

(** The index that [sample_word] spells. *)
Definition letter_value (c : ascii) : Z := Z.of_N (N_of_ascii c) - 97.

Definition sample_index (w : string) : option Z :=
  match w with
  | String a (String b (String c (String d EmptyString))) =>
      Some (4096 * letter_value a + 256 * letter_value b
            + 16 * letter_value c + letter_value d)
  | _ =>
      if String.eqb w "abilene" then Some 97
      else if String.eqb w "handset" then Some 25972
      else if String.eqb w "interview" then Some 29811
      else if String.eqb w "laughingly" then Some 32268
      else if String.eqb w "sterility" then Some 55423
      else None
  end.

(** The package with that list as version 1 and no other version. *)
Definition sample_package : package :=
  fun version => if version =? 1 then Some (Some sample_wordlist) else None.

Definition fresh : state := {| _wordlist := [] |}.
Definition loaded : state := {| _wordlist := sample_wordlist |}.

(** [decode(encode(binary_data))], the state going from one call to the
    other. *)
Definition decode_encode (pkg : package) (binary_data : bytes) (version : Z)
    (checksum return_string : bool) (st : state) : result bytes :=
  match encode pkg binary_data version checksum return_string st with
  | (Ok encoded, st') => fst (decode pkg encoded version st')
  | (Raise e, _) => Raise e
  end.

(** A wordlist that holds the two marker words, at indices 0 and 1. *)
Definition marker_wordlist : list string :=
  PADDING_WORD :: CHECKSUM_WORD :: skipn 2 sample_wordlist.

(** ** The checksum words, in the order the specification names

    The specification's data model has the checksum "split into two 2-byte
    big-endian-packed halves".  [pack_i_big_endian] is [struct.pack('>i', x)],
    and [checksum_words] maps the two halves of four packed bytes to their
    words as [encode] does. *)
Definition pack_i_big_endian (x : Z) : result bytes :=
  b <- pack_i x ;; Ok (rev b).

Definition checksum_words (wordlist : list string) (checksum_bytes : bytes)
  : result (list string) :=
  word0 <- _chunk_to_word (slice checksum_bytes 0 2) wordlist ;;
  word1 <- _chunk_to_word (slice checksum_bytes 2 4) wordlist ;;
  Ok [word0; word1].

(** ** Calls with keyword arguments *)

(** A call [encode(binary_data, name=value, ...)] or [decode(words,
    name=value, ...)]: Python binds each keyword to the parameter of that
    name and raises [TypeError] for a keyword the function does not have.
    Keyword values are integers, [True] and [False] being 1 and 0. *)
Definition kwargs : Type := list (string * Z).

Fixpoint keyword (name : string) (kw : kwargs) (default : Z) : Z :=
  match kw with
  | [] => default
  | (n, v) :: kw' => if String.eqb n name then v else keyword name kw' default
  end.

Definition accepts (parameters : list string) (kw : kwargs) : bool :=
  forallb (fun nv => existsb (String.eqb (fst nv)) parameters) kw.

Definition call_encode (pkg : package) (binary_data : bytes) (kw : kwargs)
    (st : state) : result words * state :=
  if accepts ["version"; "checksum"; "return_string"] kw
  then encode pkg binary_data
         (keyword "version" kw DEFAULT_WORDLIST_VERSION)
         (negb (keyword "checksum" kw 0 =? 0))
         (negb (keyword "return_string" kw 1 =? 0)) st
  else (Raise TypeError, st).

Definition call_decode (pkg : package) (words : words) (kw : kwargs)
    (st : state) : result bytes * state :=
  if accepts ["version"] kw
  then decode pkg words (keyword "version" kw DEFAULT_WORDLIST_VERSION) st
  else (Raise TypeError, st).

(** ** Auxiliary notions for the statements *)

(** A list of even length is a sequence of two-byte chunks. *)
Definition flat (cs : list (byte * byte)) : bytes :=
  flat_map (fun c => [fst c; snd c]) cs.

Fixpoint chunks (d : bytes) : list (byte * byte) :=
  match d with
  | b0 :: b1 :: rest => (b0, b1) :: chunks rest
  | _ => []
  end.

(** The index a chunk stands for, and the word at it. *)
Definition chunk_index (c : byte * byte) : Z :=
  byte_to_Z (fst c) + 256 * byte_to_Z (snd c).

Definition word_of_chunk (wordlist : list string) (c : byte * byte) : string :=
  nth (Z.to_nat (chunk_index c)) wordlist "".

(** The words of the data and, for data of odd length, the padding marker
    after them: the encoding without a checksum. *)
Definition data_words (wordlist : list string) (d : bytes) : list string :=
  if (List.length d mod 2 =? 1)%nat
  then map (word_of_chunk wordlist) (chunks (d ++ [x00])) ++ [PADDING_WORD]
  else map (word_of_chunk wordlist) (chunks d).

(** The two halves of the body of [decode]: the data with its padding
    marker, and the comparison of the recorded checksum. *)
Definition decode_data (wordlist : list string) (words : list string)
  : result bytes :=
  last_word <- getitem_neg words 1 ;;
  let is_padded := String.eqb last_word PADDING_WORD in
  let words := if is_padded then slice_to_neg words 1 else words in
  output <- decode_loop wordlist words [] ;;
  Ok (if is_padded then slice_to_neg output 1 else output).

Definition verify (wordlist : list string) (word0 word1 : string)
    (output : bytes) : result bytes :=
  checksum_packed <- _word_to_chunk word0 wordlist ;;
  chunk1 <- _word_to_chunk word1 wordlist ;;
  checksum_unpacked <- unpack_i (checksum_packed ++ chunk1) ;;
  if negb (checksum_unpacked =? crc32 output)
  then Raise (HumanEncodingError Invalid_CRC32_checksum)
  else Ok output.

Fixpoint no_space (s : string) : bool :=
  match s with
  | EmptyString => true
  | String c r => negb (is_space c) && no_space r
  end.

(** A word as [decode] can take it back from a space-joined string
    unchanged: lower case, not empty, free of white space. *)
Definition plain (w : string) : Prop := lower w = w /\ split w = [w].

(** No word of the data stands where [decode] looks for a marker: the last
    word of data of even length is not the padding marker and, when no
    checksum follows, the word three from the end is not the checksum
    marker. *)
Definition unambiguous (wordlist : list string) (binary_data : bytes)
    (checksum : bool) : Prop :=
  forall ws,
    encoded_output wordlist binary_data false = Ok ws ->
    ((List.length binary_data mod 2 =? 1)%nat = false ->
     getitem_neg ws 1 <> Ok PADDING_WORD)
    /\ (checksum = false -> 3 < len ws -> getitem_neg ws 3 <> Ok CHECKSUM_WORD).

(** The list [l] after the assignment [l[i] = a], for [0 <= i < len(l)]:
    the mutation of one word of an encoding. *)
Fixpoint replace_at {A : Type} (i : nat) (a : A) (l : list A) : list A :=
  match l, i with
  | [], _ => []
  | _ :: rest, O => a :: rest
  | x :: rest, S i' => x :: replace_at i' a rest
  end.

(** The state in which a call for [version] works with [wordlist]. *)
Definition loads (pkg : package) (version : Z) (st : state)
    (wordlist : list string) : Prop :=
  fst (lazily_load_wordlist pkg version st) = Ok wordlist.

(** The cache as every call finds and leaves it: empty, or a list of
    [WORDLIST_SIZE] words. *)
Definition cache_sized (st : state) : Prop :=
  _wordlist st = [] \/ len (_wordlist st) = WORDLIST_SIZE.

(** A string of white space only, which [str.split] skips. *)
Fixpoint blank (s : string) : bool :=
  match s with
  | EmptyString => true
  | String c r => is_space c && blank r
  end.

(** * Properties *)

(** Lookups and checksums are rewritten with their lemmas, not unfolded. *)
Arguments _word_to_chunk : simpl never.
Arguments _chunk_to_word : simpl never.
Arguments crc32 : simpl never.
Arguments pack_i : simpl never.
Arguments unpack_i : simpl never.

(** ** Bytes and [struct] *)

Lemma byte_to_Z_range (b : byte) : 0 <= byte_to_Z b < 256.
Proof.
  unfold byte_to_Z. pose proof (Byte.to_N_bounded b). lia.
Qed.

Lemma byte_of_to_Z (b : byte) : byte_of_Z (byte_to_Z b) = b.
Proof.
  unfold byte_of_Z, byte_to_Z. now rewrite N2Z.id, Byte.of_to_N.
Qed.

Lemma byte_to_of_Z (z : Z) : 0 <= z < 256 -> byte_to_Z (byte_of_Z z) = z.
Proof.
  intros Hz. unfold byte_of_Z, byte_to_Z.
  destruct (Byte.of_N (Z.to_N z)) as [b|] eqn:E.
  - apply Byte.to_of_N in E. rewrite E. lia.
  - apply Byte.of_N_None_iff in E. lia.
Qed.

Lemma pack_unpack_H (b0 b1 : byte) :
  exists i, unpack_H [b0; b1] = Ok i /\ 0 <= i <= 65535
            /\ pack_H i = Ok [b0; b1].
Proof.
  pose proof (byte_to_Z_range b0) as H0.
  pose proof (byte_to_Z_range b1) as H1.
  exists (byte_to_Z b0 + 256 * byte_to_Z b1). split; [reflexivity|].
  split; [lia|]. unfold pack_H.
  replace ((0 <=? _) && (_ <=? 65535)) with true
    by (symmetry; apply andb_true_iff; split; apply Z.leb_le; lia).
  replace ((byte_to_Z b0 + 256 * byte_to_Z b1) mod 256) with (byte_to_Z b0)
    by (apply Z.mod_unique with (q := byte_to_Z b1); lia).
  replace ((byte_to_Z b0 + 256 * byte_to_Z b1) / 256) with (byte_to_Z b1)
    by (apply Z.div_unique with (r := byte_to_Z b0); lia).
  now rewrite !byte_of_to_Z.
Qed.

Lemma unpack_pack_H (i : Z) :
  0 <= i <= 65535 ->
  exists b0 b1, pack_H i = Ok [b0; b1] /\ unpack_H [b0; b1] = Ok i.
Proof.
  intros Hi. unfold pack_H.
  replace ((0 <=? i) && (i <=? 65535)) with true
    by (symmetry; apply andb_true_iff; split; apply Z.leb_le; lia).
  eexists _, _. split; [reflexivity|]. unfold unpack_H. f_equal.
  assert (0 <= i mod 256 < 256) by (apply Z.mod_pos_bound; lia).
  assert (0 <= i / 256 < 256)
    by (split; [apply Z.div_pos; lia | apply Z.div_lt_upper_bound; lia]).
  rewrite !byte_to_of_Z by assumption.
  rewrite (Z.div_mod i 256) at 3 by lia. lia.
Qed.

Lemma unpack_pack_i (x : Z) :
  - 2 ^ 31 <= x < 2 ^ 31 ->
  exists b0 b1 b2 b3,
    pack_i x = Ok [b0; b1; b2; b3] /\ unpack_i [b0; b1; b2; b3] = Ok x.
Proof.
  intros Hx. unfold pack_i.
  replace ((- 2 ^ 31 <=? x) && (x <? 2 ^ 31)) with true
    by (symmetry; apply andb_true_iff; split;
        [apply Z.leb_le | apply Z.ltb_lt]; lia).
  cbv zeta. eexists _, _, _, _. split; [reflexivity|].
  unfold unpack_i. f_equal.
  set (u := x mod 2 ^ 32).
  assert (Hu : 0 <= u < 2 ^ 32) by (apply Z.mod_pos_bound; lia).
  assert (0 <= u mod 256 < 256) by (apply Z.mod_pos_bound; lia).
  assert (0 <= (u / 256) mod 256 < 256) by (apply Z.mod_pos_bound; lia).
  assert (0 <= (u / 65536) mod 256 < 256) by (apply Z.mod_pos_bound; lia).
  assert (0 <= u / 16777216 < 256)
    by (split; [apply Z.div_pos; lia | apply Z.div_lt_upper_bound; lia]).
  rewrite !byte_to_of_Z by assumption.
  assert (E : u mod 256 + 256 * ((u / 256) mod 256)
              + 65536 * ((u / 65536) mod 256) + 16777216 * (u / 16777216)
              = u).
  { pose proof (Z.div_mod u 256 ltac:(lia)).
    pose proof (Z.div_mod (u / 256) 256 ltac:(lia)).
    pose proof (Z.div_mod (u / 65536) 256 ltac:(lia)).
    replace (u / 65536) with (u / 256 / 256) in *
      by (rewrite Z.div_div by lia; reflexivity).
    replace (u / 16777216) with (u / 256 / 256 / 256)
      by (rewrite !Z.div_div by lia; reflexivity).
    lia. }
  rewrite E. subst u.
  destruct (Z.leb_spec (2 ^ 31) (x mod 2 ^ 32)) as [Hge|Hlt].
  - assert (x < 0).
    { destruct (Z.lt_ge_cases x 0); [assumption|].
      rewrite Z.mod_small in Hge; lia. }
    replace x with (x + 1 * 2 ^ 32 - 2 ^ 32) at 2 by lia.
    rewrite <- (Z.mod_add x 1 (2 ^ 32)) by lia.
    rewrite (Z.mod_small (x + 1 * 2 ^ 32)) by lia. lia.
  - destruct (Z.lt_ge_cases x 0) as [Hneg|Hpos].
    + rewrite <- (Z.mod_add x 1 (2 ^ 32)) in Hlt by lia.
      rewrite Z.mod_small in Hlt; lia.
    + apply Z.mod_small. lia.
Qed.

(** ** Lists: negative indices, chunks *)

Lemma slice_to_neg_app {A : Type} (l s : list A) :
  slice_to_neg (l ++ s) (List.length s) = l.
Proof.
  unfold slice_to_neg. rewrite length_app, Nat.add_sub.
  rewrite firstn_app, Nat.sub_diag, firstn_all. simpl. apply app_nil_r.
Qed.

Lemma slice_from_neg_app {A : Type} (l s : list A) :
  slice_from_neg (l ++ s) (List.length s) = s.
Proof.
  unfold slice_from_neg. rewrite length_app, Nat.add_sub.
  rewrite skipn_app, Nat.sub_diag, skipn_all. reflexivity.
Qed.

Lemma getitem_neg_app {A : Type} (l s : list A) (a : A) :
  getitem_neg (l ++ a :: s) (S (List.length s)) = Ok a.
Proof.
  unfold getitem_neg. rewrite length_app. simpl List.length.
  replace (S (List.length s) <=? List.length l + S (List.length s))%nat
    with true by (symmetry; apply Nat.leb_le; lia).
  replace (List.length l + S (List.length s) - S (List.length s))%nat
    with (List.length l + 0)%nat by lia.
  now rewrite nth_error_app2, Nat.add_comm, Nat.add_sub by lia.
Qed.

Lemma getitem_neg_last {A : Type} (l : list A) (a : A) :
  getitem_neg (l ++ [a]) 1 = Ok a.
Proof. exact (getitem_neg_app l [] a). Qed.

Lemma slice_to_neg_last {A : Type} (l : list A) (a : A) :
  slice_to_neg (l ++ [a]) 1 = l.
Proof. exact (slice_to_neg_app l [a]). Qed.

Lemma getitem_neg_third {A : Type} (l : list A) (a b c : A) :
  getitem_neg (l ++ [a; b; c]) 3 = Ok a.
Proof. exact (getitem_neg_app l [b; c] a). Qed.

Lemma slice_to_neg_nil {A : Type} (k : nat) : slice_to_neg (@nil A) k = [].
Proof. reflexivity. Qed.

Lemma list_ind2 {A : Type} (P : list A -> Prop) :
  P [] -> (forall a, P [a]) ->
  (forall a b l, P l -> P (a :: b :: l)) ->
  forall l, P l.
Proof.
  intros H0 H1 H2.
  assert (H : forall l, P l /\ forall a, P (a :: l)).
  { induction l as [|x l [IH1 IH2]]; split; auto. }
  intros l. apply H.
Qed.

Lemma flat_chunks (d : bytes) :
  Nat.even (List.length d) = true -> flat (chunks d) = d.
Proof.
  induction d as [|a|a b l IH] using list_ind2; intros H.
  - reflexivity.
  - discriminate.
  - simpl. f_equal. f_equal. apply IH. exact H.
Qed.

Lemma length_flat (cs : list (byte * byte)) :
  List.length (flat cs) = (2 * List.length cs)%nat.
Proof.
  induction cs as [|c cs IH]; [reflexivity|].
  change (flat (c :: cs)) with (fst c :: snd c :: flat cs).
  simpl List.length. rewrite IH. lia.
Qed.

Lemma flat_app (cs cs' : list (byte * byte)) :
  flat (cs ++ cs') = flat cs ++ flat cs'.
Proof. unfold flat. apply flat_map_app. Qed.

Lemma range_step2_even (n : nat) :
  range_step2 (2 * n) = map (fun k => (2 * k)%nat) (seq 0 n).
Proof.
  unfold range_step2. f_equal. f_equal.
  replace (2 * n + 1)%nat with (S (2 * n)) by lia.
  apply Nat.div2_succ_double.
Qed.

Lemma even_length_flat (d : bytes) :
  (List.length d mod 2 =? 1)%nat = false -> flat (chunks d) = d.
Proof.
  intros H. apply flat_chunks. apply Nat.eqb_neq in H.
  apply Nat.even_spec. exists (List.length d / 2)%nat.
  pose proof (Nat.div_mod_eq (List.length d) 2).
  pose proof (Nat.mod_upper_bound (List.length d) 2). lia.
Qed.

Lemma odd_length_flat (d : bytes) :
  (List.length d mod 2 =? 1)%nat = true -> flat (chunks (d ++ [x00])) = d ++ [x00].
Proof.
  intros H. apply flat_chunks. apply Nat.eqb_eq in H.
  apply Nat.even_spec. exists (List.length d / 2 + 1)%nat.
  rewrite length_app. simpl List.length.
  pose proof (Nat.div_mod_eq (List.length d) 2). lia.
Qed.

(** ** [list.index] against [nth_error] *)

Lemma index_Some_nth (w : string) (l : list string) (i : nat) :
  index w l = Some i -> nth_error l i = Some w.
Proof.
  revert i. induction l as [|x l IH]; intros i H; simpl in H; [discriminate|].
  destruct (String.eqb_spec x w) as [->|Hne].
  - injection H as <-. reflexivity.
  - destruct (index w l) as [j|]; [|discriminate].
    injection H as <-. simpl. now apply IH.
Qed.

Lemma index_None_not_In (w : string) (l : list string) :
  index w l = None <-> ~ In w l.
Proof.
  induction l as [|x l IH]; simpl; [tauto|].
  destruct (String.eqb_spec x w) as [->|Hne].
  - split; [discriminate | intros H; exfalso; apply H; now left].
  - destruct (index w l) as [j|]; simpl.
    + split; [discriminate|]. intros H. exfalso.
      destruct IH as [_ IH2].
      assert (E : Some j = None) by (apply IH2; intros Hin; apply H; now right).
      discriminate.
    + split; [|reflexivity]. intros _ [E|Hin]; [contradiction|].
      destruct IH as [IH1 _]. exact (IH1 eq_refl Hin).
Qed.

Lemma index_lt (w : string) (l : list string) (i : nat) :
  index w l = Some i -> (i < List.length l)%nat.
Proof.
  intros H. apply index_Some_nth in H.
  apply nth_error_Some. congruence.
Qed.

Lemma index_nth_NoDup (w : string) (l : list string) (i : nat) :
  NoDup l -> nth_error l i = Some w -> index w l = Some i.
Proof.
  intros Hnd. revert i. induction Hnd as [|x l Hx Hnd IH]; intros i H.
  - destruct i; discriminate.
  - simpl. destruct i as [|i]; simpl in H.
    + injection H as ->. now rewrite String.eqb_refl.
    + destruct (String.eqb_spec x w) as [->|Hne].
      * exfalso. apply Hx. eapply nth_error_In; eassumption.
      * now rewrite (IH i H).
Qed.

(** ** Chunks and words over a wordlist of the right size *)

Section Wordlist.

Variable wordlist : list string.
Hypothesis Hsize : len wordlist = WORDLIST_SIZE.

Lemma chunk_index_range (c : byte * byte) : 0 <= chunk_index c <= 65535.
Proof.
  unfold chunk_index.
  pose proof (byte_to_Z_range (fst c)). pose proof (byte_to_Z_range (snd c)).
  lia.
Qed.

Lemma chunk_index_lt (c : byte * byte) :
  (Z.to_nat (chunk_index c) < List.length wordlist)%nat.
Proof.
  pose proof (chunk_index_range c). unfold len, WORDLIST_SIZE in Hsize. lia.
Qed.

Lemma nth_error_word_of_chunk (c : byte * byte) :
  nth_error wordlist (Z.to_nat (chunk_index c))
  = Some (word_of_chunk wordlist c).
Proof.
  unfold word_of_chunk. apply nth_error_nth'. apply chunk_index_lt.
Qed.

Lemma chunk_to_word_total (b0 b1 : byte) :
  _chunk_to_word [b0; b1] wordlist = Ok (word_of_chunk wordlist (b0, b1)).
Proof.
  unfold _chunk_to_word, _bytes_to_int, unpack_H, bind, getitem.
  change (byte_to_Z b0 + 256 * byte_to_Z b1) with (chunk_index (b0, b1)).
  now rewrite nth_error_word_of_chunk.
Qed.

Lemma word_of_chunk_In (c : byte * byte) : In (word_of_chunk wordlist c) wordlist.
Proof.
  eapply nth_error_In. apply nth_error_word_of_chunk.
Qed.

Lemma word_to_chunk_In (w : string) :
  In w wordlist ->
  exists c, _word_to_chunk w wordlist = Ok [fst c; snd c].
Proof.
  intros Hin. unfold _word_to_chunk.
  destruct (index w wordlist) as [i|] eqn:E.
  - pose proof (index_lt _ _ _ E) as Hlt.
    destruct (unpack_pack_H (Z.of_nat i)) as (b0 & b1 & Hp & _).
    { unfold len, WORDLIST_SIZE in Hsize. lia. }
    exists (b0, b1). exact Hp.
  - apply index_None_not_In in E. contradiction.
Qed.

Lemma word_to_chunk_not_In (w : string) :
  ~ In w wordlist ->
  _word_to_chunk w wordlist = Raise (HumanEncodingError (Invalid_word w)).
Proof.
  intros Hin. unfold _word_to_chunk.
  apply index_None_not_In in Hin. now rewrite Hin.
Qed.

Hypothesis Hnodup : NoDup wordlist.

Lemma word_to_chunk_of_chunk (c : byte * byte) :
  _word_to_chunk (word_of_chunk wordlist c) wordlist = Ok [fst c; snd c].
Proof.
  unfold _word_to_chunk.
  rewrite (index_nth_NoDup _ _ _ Hnodup (nth_error_word_of_chunk c)).
  rewrite Z2Nat.id by apply chunk_index_range.
  destruct (pack_unpack_H (fst c) (snd c)) as (i & Hu & _ & Hp).
  unfold unpack_H in Hu. injection Hu as <-. exact Hp.
Qed.

End Wordlist.

(** ** The range of the CRC-32 *)

(** The steps of the CRC are unfolded by rewriting only: comparing two
    registers by computation on an unknown input is costly. *)
Lemma fold_left_cons {A B : Type} (f : A -> B -> A) (b : B) (l : list B) (a : A) :
  fold_left f (b :: l) a = fold_left f l (f a b).
Proof. reflexivity. Qed.

Lemma fold_left_nil {A B : Type} (f : A -> B -> A) (a : A) :
  fold_left f (@nil B) a = a.
Proof. reflexivity. Qed.

Lemma crc32_update_eq (c : Z) (b : byte) :
  crc32_update c b = Nat.iter 8 crc32_shift (Z.lxor c (byte_to_Z b)).
Proof. reflexivity. Qed.

Lemma iter_succ {A : Type} (f : A -> A) (n : nat) (a : A) :
  Nat.iter (S n) f a = f (Nat.iter n f a).
Proof. reflexivity. Qed.

Lemma lxor_range (n a b : Z) :
  0 < n -> 0 <= a < 2 ^ n -> 0 <= b < 2 ^ n -> 0 <= Z.lxor a b < 2 ^ n.
Proof.
  intros Hn Ha Hb.
  assert (Hnn : 0 <= Z.lxor a b) by (apply Z.lxor_nonneg; lia).
  split; [exact Hnn|].
  destruct (Z.eq_dec (Z.lxor a b) 0) as [->|Hne]; [lia|].
  apply Z.log2_lt_pow2; [lia|].
  pose proof (Z.log2_lxor a b ltac:(lia) ltac:(lia)) as Hlog.
  assert (Hla : Z.log2 a < n).
  { destruct (Z.eq_dec a 0) as [->|]; [simpl; lia|].
    apply Z.log2_lt_pow2; lia. }
  assert (Hlb : Z.log2 b < n).
  { destruct (Z.eq_dec b 0) as [->|]; [simpl; lia|].
    apply Z.log2_lt_pow2; lia. }
  lia.
Qed.

Lemma crc32_shift_range (c : Z) :
  0 <= c < 2 ^ 32 -> 0 <= crc32_shift c < 2 ^ 32.
Proof.
  intros Hc. unfold crc32_shift. apply lxor_range; [lia| |].
  - rewrite Z.shiftr_div_pow2 by lia. split.
    + apply Z.div_pos; lia.
    + apply Z.div_lt_upper_bound; lia.
  - destruct (Z.odd c); unfold CRC32_POLY; lia.
Qed.

Lemma iter_crc32_shift_range (n : nat) (c : Z) :
  0 <= c < 2 ^ 32 -> 0 <= Nat.iter n crc32_shift c < 2 ^ 32.
Proof.
  intros Hc. induction n as [|n IH].
  - exact Hc.
  - rewrite iter_succ. apply crc32_shift_range. exact IH.
Qed.

Lemma crc32_update_range (c : Z) (b : byte) :
  0 <= c < 2 ^ 32 -> 0 <= crc32_update c b < 2 ^ 32.
Proof.
  intros Hc. rewrite crc32_update_eq. apply iter_crc32_shift_range.
  apply lxor_range; [lia|exact Hc|].
  pose proof (byte_to_Z_range b). lia.
Qed.

Lemma fold_crc32_update_range (data : bytes) (c : Z) :
  0 <= c < 2 ^ 32 -> 0 <= fold_left crc32_update data c < 2 ^ 32.
Proof.
  revert c. induction data as [|b data IH]; intros c Hc.
  - exact Hc.
  - rewrite fold_left_cons. apply IH. apply crc32_update_range. exact Hc.
Qed.

Lemma crc32_unsigned_range (data : bytes) : 0 <= crc32_unsigned data < 2 ^ 32.
Proof.
  unfold crc32_unsigned, crc32_register. apply lxor_range; [lia| |lia].
  apply fold_crc32_update_range. lia.
Qed.

Lemma crc32_range (data : bytes) : - 2 ^ 31 <= crc32 data < 2 ^ 31.
Proof.
  unfold crc32. pose proof (crc32_unsigned_range data).
  destruct (Z.leb_spec (2 ^ 31) (crc32_unsigned data)); lia.
Qed.

(** ** The loops of [encode] and [decode] *)

Section Loops.

Variable wordlist : list string.
Hypothesis Hsize : len wordlist = WORDLIST_SIZE.

Lemma encode_loop_flat (cs : list (byte * byte)) :
  forall (pre : bytes) (k : nat) (acc : list string),
    List.length pre = (2 * k)%nat ->
    encode_loop wordlist (pre ++ flat cs)
      (map (fun k => (2 * k)%nat) (seq k (List.length cs))) acc
    = Ok (acc ++ map (word_of_chunk wordlist) cs).
Proof.
  induction cs as [|[b0 b1] cs IH]; intros pre k acc Hpre.
  - simpl. now rewrite app_nil_r.
  - change (flat ((b0, b1) :: cs)) with (b0 :: b1 :: flat cs).
    cbn [List.length seq map encode_loop].
    assert (Hslice : slice (pre ++ b0 :: b1 :: flat cs) (2 * k) (2 * k + 2)
                     = [b0; b1]).
    { unfold slice. rewrite Nat.add_comm, Nat.add_sub.
      rewrite <- Hpre, skipn_app, skipn_all, Nat.sub_diag. reflexivity. }
    rewrite Hslice, (chunk_to_word_total wordlist Hsize). cbn [bind].
    replace (pre ++ b0 :: b1 :: flat cs) with ((pre ++ [b0; b1]) ++ flat cs)
      by (rewrite <- app_assoc; reflexivity).
    rewrite (IH (pre ++ [b0; b1]) (S k)).
    + rewrite <- app_assoc. reflexivity.
    + rewrite length_app. simpl List.length. lia.
Qed.

Lemma encode_loop_all (cs : list (byte * byte)) :
  encode_loop wordlist (flat cs) (range_step2 (List.length (flat cs))) []
  = Ok (map (word_of_chunk wordlist) cs).
Proof.
  rewrite length_flat, range_step2_even.
  exact (encode_loop_flat cs [] 0 [] eq_refl).
Qed.

Hypothesis Hnodup : NoDup wordlist.

Lemma decode_loop_words (cs : list (byte * byte)) :
  forall acc : bytes,
    decode_loop wordlist (map (word_of_chunk wordlist) cs) acc
    = Ok (acc ++ flat cs).
Proof.
  induction cs as [|c cs IH]; intros acc.
  - simpl. now rewrite app_nil_r.
  - cbn [map decode_loop].
    rewrite (word_to_chunk_of_chunk wordlist Hsize Hnodup). cbn [bind].
    rewrite IH, <- app_assoc. reflexivity.
Qed.

End Loops.

(** ** What [encode] builds *)

Section Encoded.

Variable wordlist : list string.
Hypothesis Hsize : len wordlist = WORDLIST_SIZE.

Lemma encoded_output_plain (d : bytes) :
  encoded_output wordlist d false = Ok (data_words wordlist d).
Proof.
  unfold encoded_output, data_words. cbv zeta.
  destruct (List.length d mod 2 =? 1)%nat eqn:E.
  - replace (List.length d + 1)%nat with (List.length (d ++ [x00]))
      by (rewrite length_app; reflexivity).
    rewrite <- (odd_length_flat d E) at 1 2.
    rewrite (encode_loop_all wordlist Hsize). reflexivity.
  - rewrite <- (even_length_flat d E) at 1 2.
    rewrite (encode_loop_all wordlist Hsize). reflexivity.
Qed.

Lemma encoded_output_checksum (d : bytes) :
  exists b0 b1 b2 b3,
    pack_i (crc32 d) = Ok [b0; b1; b2; b3]
    /\ unpack_i [b0; b1; b2; b3] = Ok (crc32 d)
    /\ encoded_output wordlist d true
       = Ok (data_words wordlist d
             ++ [CHECKSUM_WORD; word_of_chunk wordlist (b0, b1);
                 word_of_chunk wordlist (b2, b3)]).
Proof.
  destruct (unpack_pack_i (crc32 d) (crc32_range d))
    as (b0 & b1 & b2 & b3 & Hp & Hu).
  exists b0, b1, b2, b3. split; [exact Hp|]. split; [exact Hu|].
  pose proof (encoded_output_plain d) as Hplain.
  unfold encoded_output in *. cbv zeta in *.
  destruct (List.length d mod 2 =? 1)%nat;
    (destruct (encode_loop wordlist _ _ []) as [ws|e]; [|discriminate]);
    cbn [bind] in *; injection Hplain as Hplain;
    try rewrite slice_to_neg_last;
    rewrite Hp; cbn [bind];
    change (slice [b0; b1; b2; b3] 0 2) with [b0; b1];
    change (slice [b0; b1; b2; b3] 2 4) with [b2; b3];
    rewrite !(chunk_to_word_total wordlist Hsize); cbn [bind];
    rewrite Hplain, <- !app_assoc; reflexivity.
Qed.

End Encoded.

(** ** The two paths of [decode] *)

Lemma len_app {A : Type} (l s : list A) : len (l ++ s) = len l + len s.
Proof. unfold len. rewrite length_app. lia. Qed.

Lemma bind_assoc {A B C : Type} (r : result A) (f : A -> result B)
    (g : B -> result C) :
  bind (bind r f) g = bind r (fun a => bind (f a) g).
Proof. destruct r; reflexivity. Qed.

(** Without a checksum marker three words from the end, the whole input is
    data. *)
Lemma decode_words_unstripped (wordlist words : list string) :
  ~ (3 < len words /\ getitem_neg (map lower words) 3 = Ok CHECKSUM_WORD) ->
  decode_words wordlist words = decode_data wordlist (map lower words).
Proof.
  intros Hno. unfold decode_words, decode_data. cbv zeta.
  assert (Hlen : len (map lower words) = len words)
    by (unfold len; now rewrite length_map).
  rewrite Hlen.
  assert (Hst : forall marker,
             (if 3 <? len words then getitem_neg (map lower words) 3 else Ok "")
             = Ok marker ->
             (3 <? len words) && String.eqb marker CHECKSUM_WORD = false).
  { intros marker Hm. destruct (Z.ltb_spec 3 (len words)) as [Hgt|]; [|reflexivity].
    cbn [andb]. destruct (String.eqb_spec marker CHECKSUM_WORD) as [->|]; [|reflexivity].
    exfalso. apply Hno. split; assumption. }
  destruct (if 3 <? len words then getitem_neg (map lower words) 3 else Ok "")
    as [marker|e] eqn:Em.
  - cbn [bind]. rewrite (Hst marker eq_refl). cbn [truthy].
    destruct (getitem_neg (map lower words) 1) as [last_word|]; [|reflexivity].
    cbn [bind].
    destruct (decode_loop wordlist _ []); reflexivity.
  - exfalso. destruct (Z.ltb_spec 3 (len words)) as [Hgt|]; [|discriminate].
    unfold getitem_neg in Em. rewrite length_map in Em. unfold len in Hgt.
    destruct (Nat.leb_spec 3 (List.length words)) as [Hle|]; [|lia].
    destruct (nth_error (map lower words) (List.length words - 3)) eqn:En;
      [discriminate|].
    apply nth_error_None in En. rewrite length_map in En. lia.
Qed.

(** With the marker there, the last two words are compared with the CRC-32
    of what the words before the marker decode to. *)
Lemma decode_words_stripped (wordlist words data : list string)
    (word0 word1 : string) :
  map lower words = data ++ [CHECKSUM_WORD; word0; word1] ->
  data <> [] ->
  decode_words wordlist words
  = (output <- decode_data wordlist data ;; verify wordlist word0 word1 output).
Proof.
  intros Hw Hne. unfold decode_words, decode_data, verify. cbv zeta.
  rewrite Hw.
  assert (Hgt : (3 <? len (data ++ [CHECKSUM_WORD; word0; word1])) = true).
  { apply Z.ltb_lt. rewrite len_app. unfold len. simpl List.length.
    destruct data; [contradiction|]. simpl List.length. lia. }
  assert (H1 : getitem_neg (data ++ [CHECKSUM_WORD; word0; word1]) 3
               = Ok CHECKSUM_WORD)
    by apply (getitem_neg_app data [word0; word1]).
  assert (H2 : slice_from_neg (data ++ [CHECKSUM_WORD; word0; word1]) 2
               = [word0; word1]).
  { change (data ++ [CHECKSUM_WORD; word0; word1])
      with (data ++ [CHECKSUM_WORD] ++ [word0; word1]).
    rewrite app_assoc. apply (slice_from_neg_app _ [word0; word1]). }
  assert (H3 : slice_to_neg (data ++ [CHECKSUM_WORD; word0; word1]) 3 = data)
    by apply (slice_to_neg_app data [CHECKSUM_WORD; word0; word1]).
  rewrite Hgt, H1. cbn [bind]. rewrite String.eqb_refl. cbn [andb].
  rewrite H2, H3. cbn [truthy].
  destruct (getitem_neg data 1) as [last_word|]; [|reflexivity].
  cbn [bind].
  destruct (decode_loop wordlist _ []) as [output|]; [|reflexivity].
  cbn [bind]. change (getitem [word0; word1] 0) with (Ok word0).
  change (getitem [word0; word1] 1) with (Ok word1). cbn [bind].
  reflexivity.
Qed.

Lemma decode_data_padded (wordlist data : list string) :
  decode_data wordlist (data ++ [PADDING_WORD])
  = (output <- decode_loop wordlist data [] ;; Ok (slice_to_neg output 1)).
Proof.
  unfold decode_data. rewrite getitem_neg_last. cbn [bind].
  rewrite String.eqb_refl, slice_to_neg_last. reflexivity.
Qed.

Lemma decode_data_unpadded (wordlist data : list string) (w : string) :
  w <> PADDING_WORD ->
  decode_data wordlist (data ++ [w]) = decode_loop wordlist (data ++ [w]) [].
Proof.
  intros Hw. unfold decode_data. rewrite getitem_neg_last. cbn [bind].
  apply String.eqb_neq in Hw. rewrite Hw.
  destruct (decode_loop wordlist (data ++ [w]) []); reflexivity.
Qed.

Lemma decode_data_nil (wordlist : list string) :
  decode_data wordlist [] = Raise IndexError.
Proof. reflexivity. Qed.

(** ** Decoding what [encode] builds *)

Section Roundtrip.

Variable wordlist : list string.
Hypothesis Hsize : len wordlist = WORDLIST_SIZE.
Hypothesis Hnodup : NoDup wordlist.

Lemma lower_data_words (d : bytes) :
  Forall (fun w => lower w = w) wordlist ->
  map lower (data_words wordlist d) = data_words wordlist d.
Proof.
  intros Hlow.
  assert (Hmap : forall cs,
             map lower (map (word_of_chunk wordlist) cs)
             = map (word_of_chunk wordlist) cs).
  { intros cs. rewrite map_map. apply map_ext. intros c.
    exact (proj1 (Forall_forall _ _) Hlow _ (word_of_chunk_In wordlist Hsize c)). }
  unfold data_words. destruct (List.length d mod 2 =? 1)%nat.
  - rewrite map_app, Hmap. reflexivity.
  - apply Hmap.
Qed.

Lemma decode_data_data_words (d : bytes) :
  d <> [] ->
  ((List.length d mod 2 =? 1)%nat = false ->
   getitem_neg (data_words wordlist d) 1 <> Ok PADDING_WORD) ->
  decode_data wordlist (data_words wordlist d) = Ok d.
Proof.
  intros Hne Hpad. unfold data_words in *.
  destruct (List.length d mod 2 =? 1)%nat eqn:E; unfold decode_data; cbv zeta.
  - rewrite getitem_neg_last. cbn [bind].
    rewrite String.eqb_refl, slice_to_neg_last.
    rewrite (decode_loop_words wordlist Hsize Hnodup). cbn [bind app].
    rewrite (odd_length_flat d E).
    now rewrite slice_to_neg_last.
  - specialize (Hpad eq_refl).
    assert (Hws : map (word_of_chunk wordlist) (chunks d) <> []).
    { intros Hnil. apply map_eq_nil in Hnil. apply Hne.
      rewrite <- (even_length_flat d E), Hnil. reflexivity. }
    destruct (exists_last Hws) as (l & w & Hlast).
    rewrite Hlast in Hpad.
    rewrite getitem_neg_last in Hpad.
    rewrite Hlast at 1. rewrite getitem_neg_last. cbn [bind].
    destruct (String.eqb_spec w PADDING_WORD) as [->|_];
      [exfalso; now apply Hpad|].
    rewrite (decode_loop_words wordlist Hsize Hnodup). cbn [bind app].
    now rewrite (even_length_flat d E).
Qed.

Lemma verify_checksum (d out : bytes) (b0 b1 b2 b3 : byte) :
  unpack_i [b0; b1; b2; b3] = Ok (crc32 d) ->
  verify wordlist (word_of_chunk wordlist (b0, b1))
    (word_of_chunk wordlist (b2, b3)) out
  = if negb (crc32 d =? crc32 out)
    then Raise (HumanEncodingError Invalid_CRC32_checksum) else Ok out.
Proof.
  intros Hu. unfold verify.
  rewrite !(word_to_chunk_of_chunk wordlist Hsize Hnodup). cbn [bind fst snd app].
  rewrite Hu. reflexivity.
Qed.

(** The words [encode] builds decode to the data, when the data is not
    empty and no word of it stands where [decode] looks for a marker. *)
Lemma decode_words_encoded_output (d : bytes) (checksum : bool) :
  Forall (fun w => lower w = w) wordlist ->
  d <> [] ->
  ((List.length d mod 2 =? 1)%nat = false ->
   getitem_neg (data_words wordlist d) 1 <> Ok PADDING_WORD) ->
  (checksum = false ->
   ~ (3 < len (data_words wordlist d)
      /\ getitem_neg (data_words wordlist d) 3 = Ok CHECKSUM_WORD)) ->
  exists ws, encoded_output wordlist d checksum = Ok ws
             /\ decode_words wordlist ws = Ok d.
Proof.
  intros Hlow Hne Hpad Hchk. destruct checksum.
  - destruct (encoded_output_checksum wordlist Hsize d)
      as (b0 & b1 & b2 & b3 & _ & Hu & Henc).
    eexists. split; [exact Henc|].
    rewrite (decode_words_stripped wordlist _ (data_words wordlist d)
               (word_of_chunk wordlist (b0, b1))
               (word_of_chunk wordlist (b2, b3))).
    + rewrite (decode_data_data_words d Hne Hpad). cbn [bind].
      rewrite (verify_checksum d d b0 b1 b2 b3 Hu).
      now rewrite Z.eqb_refl.
    + rewrite map_app, (lower_data_words d Hlow). cbn [map].
      rewrite !(proj1 (Forall_forall _ _) Hlow _
                  (word_of_chunk_In wordlist Hsize _)).
      reflexivity.
    + unfold data_words. destruct (List.length d mod 2 =? 1)%nat eqn:E.
      * intros H. apply app_eq_nil in H. destruct H; discriminate.
      * intros Hnil. apply map_eq_nil in Hnil. apply Hne.
        rewrite <- (even_length_flat d E), Hnil. reflexivity.
  - exists (data_words wordlist d).
    split; [apply (encoded_output_plain wordlist Hsize)|].
    rewrite decode_words_unstripped.
    + rewrite (lower_data_words d Hlow).
      apply (decode_data_data_words d Hne Hpad).
    + rewrite (lower_data_words d Hlow). exact (Hchk eq_refl).
Qed.

End Roundtrip.

(** ** [split] undoes [join] *)

Lemma append_nil_r (s : string) : (s ++ "")%string = s.
Proof. induction s as [|c s IH]; simpl; [reflexivity | now rewrite IH]. Qed.

Lemma append_assoc (s t u : string) :
  ((s ++ t) ++ u)%string = (s ++ (t ++ u))%string.
Proof. induction s as [|c s IH]; simpl; [reflexivity | now rewrite IH]. Qed.

Lemma no_space_append (s t : string) :
  no_space (s ++ t) = no_space s && no_space t.
Proof.
  induction s as [|c s IH]; simpl; [reflexivity|].
  now rewrite IH, andb_assoc.
Qed.

Lemma split_from_append (s : string) :
  forall cur rest : string,
    no_space s = true ->
    split_from cur (s ++ rest) = split_from (cur ++ s) rest.
Proof.
  induction s as [|c s IH]; intros cur rest Hs.
  - now rewrite append_nil_r.
  - cbn [no_space] in Hs. apply andb_true_iff in Hs. destruct Hs as [Hc Hs].
    apply negb_true_iff in Hc.
    change (String c s ++ rest)%string with (String c (s ++ rest)%string).
    cbn [split_from]. rewrite Hc, (IH _ _ Hs), append_assoc. reflexivity.
Qed.

Lemma split_from_no_space (s : string) :
  forall cur : string,
    no_space cur = true ->
    Forall (fun w => no_space w = true) (split_from cur s).
Proof.
  induction s as [|c s IH]; intros cur Hcur; cbn [split_from].
  - destruct cur; constructor; auto.
  - destruct (is_space c) eqn:Ec.
    + destruct cur; [apply IH; reflexivity|].
      constructor; [exact Hcur | apply IH; reflexivity].
    + apply IH. rewrite no_space_append, Hcur. cbn [no_space andb].
      now rewrite Ec.
Qed.

Lemma split_self (w : string) :
  split w = [w] -> no_space w = true /\ w <> "".
Proof.
  intros H. split.
  - pose proof (split_from_no_space w "" eq_refl) as Hall.
    fold (split w) in Hall. rewrite H in Hall. now inversion Hall.
  - intros ->. discriminate.
Qed.

Lemma split_join (ws : list string) :
  Forall (fun w => split w = [w]) ws -> split (join " " ws) = ws.
Proof.
  induction ws as [|w ws IH]; intros Hall; [reflexivity|].
  inversion Hall as [|? ? Hw Hws]; subst.
  destruct ws as [|w' ws]; [exact Hw|].
  destruct (split_self w Hw) as [Hns Hne].
  unfold join in *. cbn [String.concat].
  unfold split. rewrite (split_from_append w "" _ Hns).
  change ("" ++ w)%string with w.
  change (" " ++ ?x)%string with (String " " x).
  cbn [split_from]. change (is_space " ") with true. cbv iota.
  destruct w; [contradiction|]. f_equal. exact (IH Hws).
Qed.

(** ** The sample wordlist is a wordlist *)

Lemma count_from_In (n : nat) :
  forall start x,
    In x (count_from start n) -> start <= x < start + Z.of_nat n.
Proof.
  induction n as [|n IH]; intros start x H; [contradiction|].
  destruct H as [<-|H]; [lia|]. apply IH in H. lia.
Qed.

Lemma count_from_NoDup (n : nat) : forall start, NoDup (count_from start n).
Proof.
  induction n as [|n IH]; intros start; constructor; [|apply IH].
  intros H. apply count_from_In in H. lia.
Qed.

Lemma length_count_from (n : nat) :
  forall start, List.length (count_from start n) = n.
Proof.
  induction n as [|n IH]; intros start; [reflexivity|].
  cbn [count_from List.length]. now rewrite IH.
Qed.

Lemma nth_error_count_from (n : nat) :
  forall start k,
    (k < n)%nat -> nth_error (count_from start n) k = Some (start + Z.of_nat k).
Proof.
  induction n as [|n IH]; intros start k Hk; [lia|].
  destruct k as [|k]; cbn [count_from nth_error].
  - f_equal. lia.
  - rewrite IH by lia. f_equal. lia.
Qed.

Lemma NoDup_map_left_inverse {A B : Type} (f : A -> B) (g : B -> option A)
    (l : list A) :
  (forall x, In x l -> g (f x) = Some x) -> NoDup l -> NoDup (map f l).
Proof.
  intros Hg Hnd. induction Hnd as [|x l Hx Hnd IH]; [constructor|].
  cbn [map]. constructor.
  - intros Hin. apply in_map_iff in Hin. destruct Hin as (y & Hy & Hin).
    assert (E : Some y = Some x).
    { rewrite <- (Hg y) by (now right). rewrite <- (Hg x) by (now left).
      now rewrite Hy. }
    injection E as ->. contradiction.
  - apply IH. intros y Hy. apply Hg. now right.
Qed.

(** The letters of a placeholder. *)
Lemma N_of_letter (d : Z) :
  0 <= d < 16 -> N_of_ascii (letter d) = Z.to_N (97 + d).
Proof.
  intros Hd. unfold letter. apply N_ascii_embedding. lia.
Qed.

Lemma nat_of_letter (d : Z) :
  0 <= d < 16 -> nat_of_ascii (letter d) = Z.to_nat (97 + d).
Proof.
  intros Hd. unfold nat_of_ascii. rewrite (N_of_letter d Hd). lia.
Qed.

Lemma letter_value_letter (d : Z) : 0 <= d < 16 -> letter_value (letter d) = d.
Proof.
  intros Hd. unfold letter_value. rewrite (N_of_letter d Hd). lia.
Qed.

Lemma ascii_lower_letter (d : Z) :
  0 <= d < 16 -> ascii_lower (letter d) = letter d.
Proof.
  intros Hd. unfold ascii_lower. cbv zeta. rewrite (nat_of_letter d Hd).
  destruct (Nat.leb_spec (Z.to_nat (97 + d)) 90) as [H|H]; [lia|].
  now rewrite andb_false_r.
Qed.

Lemma is_space_letter (d : Z) : 0 <= d < 16 -> is_space (letter d) = false.
Proof.
  intros Hd. unfold is_space. cbv zeta. rewrite (nat_of_letter d Hd).
  destruct (Nat.eqb_spec (Z.to_nat (97 + d)) 32) as [H|_]; [lia|].
  destruct (Nat.leb_spec (Z.to_nat (97 + d)) 13) as [H|_]; [lia|].
  now rewrite andb_false_r.
Qed.

Lemma digits_range (i : Z) :
  0 <= i < WORDLIST_SIZE ->
  0 <= i / 4096 < 16 /\ 0 <= (i / 256) mod 16 < 16
  /\ 0 <= (i / 16) mod 16 < 16 /\ 0 <= i mod 16 < 16
  /\ 4096 * (i / 4096) + 256 * ((i / 256) mod 16)
     + 16 * ((i / 16) mod 16) + i mod 16 = i.
Proof.
  unfold WORDLIST_SIZE. intros Hi. Z.div_mod_to_equations. lia.
Qed.

Ltac sample_cases i :=
  unfold sample_word;
  destruct (Z.eqb_spec i 97) as [->|?];
  [|destruct (Z.eqb_spec i 25972) as [->|?];
    [|destruct (Z.eqb_spec i 29811) as [->|?];
      [|destruct (Z.eqb_spec i 32268) as [->|?];
        [|destruct (Z.eqb_spec i 55423) as [->|?]]]]].

Lemma sample_index_word (i : Z) :
  0 <= i < WORDLIST_SIZE -> sample_index (sample_word i) = Some i.
Proof.
  intros Hi. sample_cases i; try reflexivity.
  destruct (digits_range i Hi) as (Ha & Hb & Hc & Hd & E).
  unfold placeholder, sample_index. cbv iota beta.
  rewrite !letter_value_letter by assumption. f_equal. exact E.
Qed.

Lemma lower_sample_word (i : Z) :
  0 <= i < WORDLIST_SIZE -> lower (sample_word i) = sample_word i.
Proof.
  intros Hi. sample_cases i; try reflexivity.
  destruct (digits_range i Hi) as (Ha & Hb & Hc & Hd & _).
  unfold placeholder. cbn [lower].
  rewrite !ascii_lower_letter by assumption. reflexivity.
Qed.

Lemma split_sample_word (i : Z) :
  0 <= i < WORDLIST_SIZE -> split (sample_word i) = [sample_word i].
Proof.
  intros Hi. sample_cases i; try reflexivity.
  destruct (digits_range i Hi) as (Ha & Hb & Hc & Hd & _).
  unfold placeholder, split. cbn [split_from].
  rewrite (is_space_letter _ Ha). cbn [append split_from].
  rewrite (is_space_letter _ Hb). cbn [append split_from].
  rewrite (is_space_letter _ Hc). cbn [append split_from].
  rewrite (is_space_letter _ Hd). cbn [append split_from].
  reflexivity.
Qed.

Lemma sample_word_not_marker (i : Z) :
  0 <= i < WORDLIST_SIZE ->
  sample_word i <> PADDING_WORD /\ sample_word i <> CHECKSUM_WORD.
Proof.
  intros Hi. sample_cases i; try (split; discriminate).
  destruct (digits_range i Hi) as (_ & Hb & _ & _ & _).
  unfold placeholder, PADDING_WORD, CHECKSUM_WORD. split; [|discriminate].
  intros H. injection H as _ H _ _.
  apply (f_equal N_of_ascii) in H. rewrite (N_of_letter _ Hb) in H.
  change (N_of_ascii "u") with 117%N in H. lia.
Qed.

Lemma sample_wordlist_In (w : string) :
  In w sample_wordlist <-> exists i, 0 <= i < WORDLIST_SIZE /\ sample_word i = w.
Proof.
  unfold sample_wordlist. rewrite in_map_iff. split.
  - intros (i & Hw & Hi). exists i. split; [|exact Hw].
    apply count_from_In in Hi. unfold WORDLIST_SIZE in *. lia.
  - intros (i & Hi & Hw). exists i. split; [exact Hw|].
    replace i with (0 + Z.of_nat (Z.to_nat i)) by lia.
    eapply nth_error_In. apply nth_error_count_from.
    unfold WORDLIST_SIZE in *. lia.
Qed.

Lemma sample_wordlist_size : len sample_wordlist = WORDLIST_SIZE.
Proof.
  unfold len, sample_wordlist. rewrite length_map, length_count_from.
  unfold WORDLIST_SIZE. lia.
Qed.

Lemma sample_wordlist_NoDup : NoDup sample_wordlist.
Proof.
  unfold sample_wordlist.
  apply (NoDup_map_left_inverse sample_word sample_index);
    [|apply count_from_NoDup].
  intros i Hi. apply sample_index_word.
  apply count_from_In in Hi. unfold WORDLIST_SIZE in *. lia.
Qed.

Lemma sample_wordlist_lower : Forall (fun w => lower w = w) sample_wordlist.
Proof.
  apply Forall_forall. intros w Hw.
  apply sample_wordlist_In in Hw. destruct Hw as (i & Hi & <-).
  now apply lower_sample_word.
Qed.

Lemma sample_wordlist_split : Forall (fun w => split w = [w]) sample_wordlist.
Proof.
  apply Forall_forall. intros w Hw.
  apply sample_wordlist_In in Hw. destruct Hw as (i & Hi & <-).
  now apply split_sample_word.
Qed.

Lemma sample_wordlist_markers :
  ~ In PADDING_WORD sample_wordlist /\ ~ In CHECKSUM_WORD sample_wordlist.
Proof.
  split; intros H; apply sample_wordlist_In in H; destruct H as (i & Hi & E);
    destruct (sample_word_not_marker i Hi); contradiction.
Qed.

Lemma sample_wordlist_truthy : truthy sample_wordlist = true.
Proof.
  pose proof sample_wordlist_size as H. unfold len, WORDLIST_SIZE in H.
  destruct sample_wordlist; [discriminate | reflexivity].
Qed.

Lemma loads_fresh : loads sample_package 1 fresh sample_wordlist.
Proof.
  unfold loads, lazily_load_wordlist, sample_package, fresh.
  cbn [_wordlist truthy Z.eqb Pos.eqb].
  rewrite sample_wordlist_size, sample_wordlist_truthy. reflexivity.
Qed.

Lemma loads_loaded (version : Z) :
  loads sample_package version loaded sample_wordlist.
Proof.
  unfold loads, lazily_load_wordlist, loaded. cbn [_wordlist].
  rewrite sample_wordlist_truthy. reflexivity.
Qed.

(** Looking words up in the sample wordlist. *)
Lemma sample_nth (i : Z) :
  0 <= i < WORDLIST_SIZE ->
  nth_error sample_wordlist (Z.to_nat i) = Some (sample_word i).
Proof.
  intros Hi. unfold sample_wordlist.
  rewrite nth_error_map, nth_error_count_from
    by (unfold WORDLIST_SIZE in *; lia).
  cbn [option_map]. f_equal. f_equal. lia.
Qed.

Lemma sample_word_of_chunk (c : byte * byte) :
  word_of_chunk sample_wordlist c = sample_word (chunk_index c).
Proof.
  pose proof (nth_error_word_of_chunk _ sample_wordlist_size c) as H.
  rewrite sample_nth in H.
  - now injection H as <-.
  - pose proof (chunk_index_range c). unfold WORDLIST_SIZE. lia.
Qed.

Lemma sample_chunk_to_word (b0 b1 : byte) :
  _chunk_to_word [b0; b1] sample_wordlist
  = Ok (sample_word (chunk_index (b0, b1))).
Proof.
  rewrite (chunk_to_word_total _ sample_wordlist_size).
  now rewrite sample_word_of_chunk.
Qed.

Lemma sample_word_to_chunk (i : Z) :
  0 <= i < WORDLIST_SIZE ->
  _word_to_chunk (sample_word i) sample_wordlist = pack_H i.
Proof.
  intros Hi. unfold _word_to_chunk, _int_to_bytes.
  rewrite (index_nth_NoDup _ _ _ sample_wordlist_NoDup (sample_nth i Hi)).
  rewrite Z2Nat.id by lia. reflexivity.
Qed.

(** ** The calls, with the wordlist loaded *)

Lemma decode_loads (pkg : package) (version : Z) (st : state)
    (wordlist : list string) (w : words) :
  loads pkg version st wordlist ->
  fst (decode pkg w version st)
  = decode_words wordlist (match w with Str s => split s | Words l => l end).
Proof.
  unfold loads, decode. intros H.
  destruct (lazily_load_wordlist pkg version st) as [[wl|e] st'];
    cbn [fst] in *; [|discriminate].
  now injection H as ->.
Qed.

Lemma encode_loads (pkg : package) (version : Z) (st : state)
    (wordlist : list string) (binary_data : bytes) (checksum return_string : bool) :
  loads pkg version st wordlist ->
  fst (encode pkg binary_data version checksum return_string st)
  = (encoded_output <- encoded_output wordlist binary_data checksum ;;
     Raise (NameError "string")).
Proof.
  unfold loads, encode. intros H.
  destruct (lazily_load_wordlist pkg version st) as [[wl|e] st'];
    cbn [fst] in *; [|discriminate].
  injection H as ->. reflexivity.
Qed.

(** [encode] returns nothing, whatever it is called with. *)
Lemma encode_never_returns (pkg : package) (binary_data : bytes) (version : Z)
    (checksum return_string : bool) (st : state) :
  exists e, fst (encode pkg binary_data version checksum return_string st)
            = Raise e.
Proof.
  unfold encode.
  destruct (lazily_load_wordlist pkg version st) as [[wl|e] st'];
    cbn [fst]; [|now exists e].
  destruct (encoded_output wl binary_data checksum) as [ws|e]; cbn [bind].
  - now eexists.
  - now exists e.
Qed.

(** ** Round trip *)

Lemma getitem_neg_In {A : Type} (l : list A) (k : nat) (a : A) :
  getitem_neg l k = Ok a -> In a l.
Proof.
  unfold getitem_neg. destruct (k <=? List.length l)%nat; [|discriminate].
  destruct (nth_error l (List.length l - k)) as [x|] eqn:E; [|discriminate].
  intros H. injection H as <-. eapply nth_error_In. exact E.
Qed.

Section Views.

Variable wordlist : list string.
Hypothesis Hsize : len wordlist = WORDLIST_SIZE.

Lemma data_words_In (d : bytes) (w : string) :
  In w (data_words wordlist d) -> In w wordlist \/ w = PADDING_WORD.
Proof.
  assert (Hmap : forall cs, In w (map (word_of_chunk wordlist) cs) ->
                            In w wordlist).
  { intros cs H. apply in_map_iff in H. destruct H as (c & <- & _).
    apply (word_of_chunk_In wordlist Hsize). }
  unfold data_words. destruct (List.length d mod 2 =? 1)%nat.
  - intros H. apply in_app_or in H. destruct H as [H|[<-|[]]].
    + left. now apply Hmap in H.
    + now right.
  - intros H. left. now apply Hmap in H.
Qed.

Lemma encoded_output_In (d : bytes) (checksum : bool) (ws : list string)
    (w : string) :
  encoded_output wordlist d checksum = Ok ws -> In w ws ->
  In w wordlist \/ w = PADDING_WORD \/ w = CHECKSUM_WORD.
Proof.
  destruct checksum.
  - destruct (encoded_output_checksum wordlist Hsize d)
      as (b0 & b1 & b2 & b3 & _ & _ & ->).
    intros H Hin. injection H as <-. apply in_app_or in Hin.
    destruct Hin as [Hin|[<-|[<-|[<-|[]]]]]; auto.
    + apply data_words_In in Hin. tauto.
    + left. apply (word_of_chunk_In wordlist Hsize).
    + left. apply (word_of_chunk_In wordlist Hsize).
  - rewrite (encoded_output_plain wordlist Hsize). intros H Hin.
    injection H as <-. apply data_words_In in Hin. tauto.
Qed.

Lemma markers_absent_unambiguous (d : bytes) (checksum : bool) :
  ~ In PADDING_WORD wordlist -> ~ In CHECKSUM_WORD wordlist ->
  unambiguous wordlist d checksum.
Proof.
  intros Hpad Hchk ws Hws. split.
  - intros Heven H. apply getitem_neg_In in H.
    rewrite (encoded_output_plain wordlist Hsize) in Hws.
    injection Hws as <-. unfold data_words in H. rewrite Heven in H.
    apply in_map_iff in H. destruct H as (c & E & _).
    apply Hpad. rewrite <- E. apply (word_of_chunk_In wordlist Hsize).
  - intros _ _ H. apply getitem_neg_In in H.
    rewrite (encoded_output_plain wordlist Hsize) in Hws.
    injection Hws as <-. apply data_words_In in H.
    destruct H as [H|H]; [contradiction | discriminate].
Qed.

End Views.


Lemma marker_wordlist_size : len marker_wordlist = WORDLIST_SIZE.
Proof.
  pose proof sample_wordlist_size as H.
  unfold marker_wordlist, len in *. cbn [List.length].
  rewrite length_skipn. unfold WORDLIST_SIZE in *. lia.
Qed.



(** ** The return statement of [encode] *)

(** C2: for [b"test"] and the default flags [encode] builds the words
    [handset interview], as the test of the repository expects, but returns
    neither their space-joined string nor their list: in both views its
    return statement raises [NameError] for the name [string]. *)
Theorem encode_test_raises :
  encoded_output sample_wordlist [x74; x65; x73; x74] false
  = Ok ["handset"; "interview"]
  /\ fst (encode sample_package [x74; x65; x73; x74]
            DEFAULT_WORDLIST_VERSION false true fresh)
     = Raise (NameError "string")
  /\ fst (encode sample_package [x74; x65; x73; x74]
            DEFAULT_WORDLIST_VERSION false false fresh)
     = Raise (NameError "string").
Proof.
  assert (E : encoded_output sample_wordlist [x74; x65; x73; x74] false
              = Ok ["handset"; "interview"]).
  { rewrite (encoded_output_plain _ sample_wordlist_size).
    unfold data_words. cbn [List.length Nat.modulo Nat.divmod Nat.eqb snd
                            Nat.sub chunks map].
    rewrite !sample_word_of_chunk. reflexivity. }
  split; [exact E|].
  unfold DEFAULT_WORDLIST_VERSION.
  split;
    rewrite (encode_loads sample_package 1 fresh _ _ false _ loads_fresh), E;
    reflexivity.
Qed.

(** ** An empty word sequence *)

(** C3: [decode] of an empty list of words, or of an empty or blank string,
    raises [IndexError]: after the checksum test nothing guards the read of
    the last word.  A sequence that the stripping of the padding marker
    empties does decode to the empty byte sequence. *)
Theorem decode_empty_raises :
  fst (decode sample_package (Words []) DEFAULT_WORDLIST_VERSION fresh)
  = Raise IndexError
  /\ fst (decode sample_package (Str "") DEFAULT_WORDLIST_VERSION fresh)
     = Raise IndexError
  /\ fst (decode sample_package (Str "  ") DEFAULT_WORDLIST_VERSION fresh)
     = Raise IndexError
  /\ fst (decode sample_package (Words ["null"]) DEFAULT_WORDLIST_VERSION fresh)
     = Ok [].
Proof.
  unfold DEFAULT_WORDLIST_VERSION.
  rewrite (decode_loads sample_package 1 fresh _ (Words []) loads_fresh).
  rewrite (decode_loads sample_package 1 fresh _ (Str "") loads_fresh).
  rewrite (decode_loads sample_package 1 fresh _ (Str "  ") loads_fresh).
  rewrite (decode_loads sample_package 1 fresh _ (Words ["null"]) loads_fresh).
  repeat split; reflexivity.
Qed.

(** On every wordlist, in fact. *)
Lemma decode_words_nil (wordlist : list string) :
  decode_words wordlist [] = Raise IndexError.
Proof. reflexivity. Qed.

(** ** Size limits *)

(** C9: the calls of the repository's tests, [encode(b"test", max_bytes=3)]
    and [decode(["handset", "interview"], max_words=1)], raise [TypeError],
    not [HumanEncodingError]: neither function has such a parameter, and
    without the keyword both process the whole input. *)
Theorem size_limit_raises_TypeError :
  call_encode sample_package [x74; x65; x73; x74] [("max_bytes", 3)] fresh
  = (Raise TypeError, fresh)
  /\ call_decode sample_package (Words ["handset"; "interview"])
       [("max_words", 1)] fresh
     = (Raise TypeError, fresh)
  /\ fst (call_decode sample_package (Words ["handset"; "interview"]) [] fresh)
     = Ok [x74; x65; x73; x74].
Proof.
  split; [reflexivity|]. split; [reflexivity|].
  unfold call_decode. cbn [accepts forallb keyword].
  unfold DEFAULT_WORDLIST_VERSION.
  rewrite (decode_loads sample_package 1 fresh _
             (Words ["handset"; "interview"]) loads_fresh).
  rewrite decode_words_unstripped
    by (intros [H _]; revert H; unfold len; cbn [List.length]; lia).
  replace (map lower ["handset"; "interview"])
    with ([sample_word 25972] ++ [sample_word 29811])
    by (vm_compute; reflexivity).
  rewrite decode_data_unpadded by (apply sample_word_not_marker; easy).
  cbn [app decode_loop].
  rewrite !sample_word_to_chunk by easy.
  reflexivity.
Qed.

(** ** The cache *)

(** C7, counterexample: once version 1 is loaded, a call for version 2, for
    which no wordlist exists, does not fail: it returns the list of
    version 1. *)
Lemma lazily_load_wordlist_counterexample :
  sample_package 2 = None
  /\ lazily_load_wordlist sample_package 1 fresh = (Ok sample_wordlist, loaded)
  /\ lazily_load_wordlist sample_package 2 loaded = (Ok sample_wordlist, loaded).
Proof.
  split; [reflexivity|]. split.
  - unfold lazily_load_wordlist, sample_package, fresh, loaded.
    cbn [_wordlist truthy Z.eqb Pos.eqb].
    rewrite sample_wordlist_size, sample_wordlist_truthy. reflexivity.
  - unfold lazily_load_wordlist, loaded. cbn [_wordlist].
    rewrite sample_wordlist_truthy. reflexivity.
Qed.

(** C7 (as amended): while nothing is cached, loading a version fails with
    [HumanEncodingError] when no wordlist module exists for it, when the
    module has no words, or when their number is not 65536, and leaves the
    cache empty; a load that succeeds stores the list in the one slot of the
    cache, and every later call returns that list, whatever version it asks
    for. *)
Theorem lazily_load_wordlist_cache (pkg : package) (version : Z) (st : state) :
  _wordlist st = [] ->
  ((pkg version = None \/ pkg version = Some None
    \/ exists words, pkg version = Some (Some words)
                     /\ len words <> WORDLIST_SIZE) ->
   exists m, lazily_load_wordlist pkg version st
             = (Raise (HumanEncodingError m), st))
  /\ (forall words,
         pkg version = Some (Some words) -> len words = WORDLIST_SIZE ->
         lazily_load_wordlist pkg version st
         = (Ok words, {| _wordlist := words |})
         /\ forall version',
             lazily_load_wordlist pkg version' {| _wordlist := words |}
             = (Ok words, {| _wordlist := words |})).
Proof.
  intros Hempty. unfold lazily_load_wordlist. rewrite Hempty. cbn [truthy].
  split.
  - intros [-> | [-> | (words & -> & Hlen)]].
    + now eexists.
    + now eexists.
    + destruct (truthy words); cbn [negb]; [|now eexists].
      apply Z.eqb_neq in Hlen. rewrite Hlen. cbn [negb]. now eexists.
  - intros words -> Hlen.
    assert (Ht : truthy words = true).
    { destruct words; [discriminate Hlen | reflexivity]. }
    rewrite Ht. apply Z.eqb_eq in Hlen. rewrite Hlen. cbn [negb _wordlist].
    rewrite Ht. split; reflexivity.
Qed.

Lemma lazily_load_wordlist_cache_witness :
  (exists m, lazily_load_wordlist sample_package 2 fresh
             = (Raise (HumanEncodingError m), fresh))
  /\ lazily_load_wordlist sample_package 1 fresh
     = (Ok sample_wordlist, {| _wordlist := sample_wordlist |})
  /\ lazily_load_wordlist sample_package 7 {| _wordlist := sample_wordlist |}
     = (Ok sample_wordlist, {| _wordlist := sample_wordlist |}).
Proof.
  split.
  - apply (lazily_load_wordlist_cache sample_package 2 fresh eq_refl).
    left. reflexivity.
  - destruct (lazily_load_wordlist_cache sample_package 1 fresh eq_refl)
      as [_ H].
    destruct (H sample_wordlist eq_refl sample_wordlist_size) as [H1 H2].
    split; [exact H1 | exact (H2 7)].
Defined.

(** ** Words that are not in the wordlist *)

Section Unknown.

Variable wordlist : list string.
Hypothesis Hsize : len wordlist = WORDLIST_SIZE.

Lemma In_wordlist_dec (w : string) : In w wordlist \/ ~ In w wordlist.
Proof.
  destruct (index w wordlist) as [i|] eqn:E.
  - left. eapply nth_error_In. apply index_Some_nth. exact E.
  - right. now apply index_None_not_In.
Qed.

(** The loop stops at the first word that is not in the wordlist. *)
Lemma decode_loop_cases (words : list string) :
  forall acc : bytes,
    (Forall (fun w => In w wordlist) words
     /\ exists output, decode_loop wordlist words acc = Ok output)
    \/ (exists w, In w words /\ ~ In w wordlist
                  /\ decode_loop wordlist words acc
                     = Raise (HumanEncodingError (Invalid_word w))).
Proof.
  induction words as [|x words IH]; intros acc.
  - left. split; [constructor | now eexists].
  - cbn [decode_loop]. destruct (In_wordlist_dec x) as [Hx|Hx].
    + destruct (word_to_chunk_In wordlist Hsize x Hx) as (c & ->).
      cbn [bind].
      destruct (IH (acc ++ [fst c; snd c])) as [[Hall Hout]|(w & Hw & Hn & E)].
      * left. split; [now constructor | exact Hout].
      * right. exists w. split; [now right|]. split; assumption.
    + right. exists x. split; [now left|]. split; [exact Hx|].
      now rewrite (word_to_chunk_not_In wordlist x Hx).
Qed.

Lemma decode_loop_unknown (words : list string) (u : string) (acc : bytes) :
  In u words -> ~ In u wordlist ->
  exists w, ~ In w wordlist
            /\ decode_loop wordlist words acc
               = Raise (HumanEncodingError (Invalid_word w)).
Proof.
  intros Hu Hn. destruct (decode_loop_cases words acc)
    as [[Hall _]|(w & _ & Hw & E)].
  - exfalso. apply Hn. exact (proj1 (Forall_forall _ _) Hall u Hu).
  - now exists w.
Qed.

Lemma decode_data_cases (words : list string) :
  words <> [] ->
  (exists output, decode_data wordlist words = Ok output)
  \/ (exists w, ~ In w wordlist
                /\ decode_data wordlist words
                   = Raise (HumanEncodingError (Invalid_word w))).
Proof.
  intros Hne. destruct (exists_last Hne) as (data & x & ->).
  destruct (String.eqb_spec x PADDING_WORD) as [->|Hx].
  - rewrite decode_data_padded.
    destruct (decode_loop_cases data []) as [[_ (out & ->)]|(w & _ & Hw & ->)].
    + left. now eexists.
    + right. now exists w.
  - rewrite (decode_data_unpadded _ _ _ Hx).
    destruct (decode_loop_cases (data ++ [x]) [])
      as [[_ (out & ->)]|(w & _ & Hw & ->)].
    + left. now eexists.
    + right. now exists w.
Qed.

Lemma decode_data_unknown (words : list string) (u : string) :
  In u words -> ~ In u wordlist -> u <> PADDING_WORD ->
  exists w, ~ In w wordlist
            /\ decode_data wordlist words
               = Raise (HumanEncodingError (Invalid_word w)).
Proof.
  intros Hu Hn Hpad.
  assert (Hne : words <> []) by (intros ->; contradiction).
  destruct (exists_last Hne) as (data & x & ->).
  destruct (String.eqb_spec x PADDING_WORD) as [->|Hx].
  - rewrite decode_data_padded.
    apply in_app_or in Hu. destruct Hu as [Hu|[Hu|[]]]; [|congruence].
    destruct (decode_loop_unknown data u [] Hu Hn) as (w & Hw & ->).
    now exists w.
  - rewrite (decode_data_unpadded _ _ _ Hx).
    exact (decode_loop_unknown _ u [] Hu Hn).
Qed.

Lemma verify_unknown (word0 word1 u : string) (output : bytes) :
  u = word0 \/ u = word1 -> ~ In u wordlist ->
  exists w, ~ In w wordlist
            /\ verify wordlist word0 word1 output
               = Raise (HumanEncodingError (Invalid_word w)).
Proof.
  intros Hu Hn. unfold verify.
  destruct (In_wordlist_dec word0) as [H0|H0].
  - destruct (word_to_chunk_In wordlist Hsize word0 H0) as (c & ->).
    cbn [bind]. destruct Hu as [->| ->]; [contradiction|].
    exists word1. split; [exact Hn|].
    now rewrite (word_to_chunk_not_In wordlist word1 Hn).
  - exists word0. split; [exact H0|].
    now rewrite (word_to_chunk_not_In wordlist word0 H0).
Qed.

End Unknown.

Lemma last_three {A : Type} (l : list A) :
  3 < len l -> exists data a b c, l = data ++ [a; b; c] /\ data <> [].
Proof.
  unfold len. intros Hlen.
  rewrite <- (firstn_skipn (List.length l - 3) l).
  assert (H3 : List.length (skipn (List.length l - 3) l) = 3%nat)
    by (rewrite length_skipn; lia).
  assert (Hd : List.length (firstn (List.length l - 3) l) <> 0%nat)
    by (rewrite length_firstn; lia).
  destruct (skipn (List.length l - 3) l) as [|a [|b [|c [|]]]];
    try discriminate.
  exists (firstn (List.length l - 3) l), a, b, c. split; [reflexivity|].
  intros E. rewrite E in Hd. now apply Hd.
Qed.




(** ** The padding byte *)

(** C10: when the last word, after a checksum is stripped, is the padding
    marker, [decode] drops the last byte the words before it decode to,
    whatever that byte is: the input is accepted and the truncated bytes are
    returned (or, with a checksum, compared with it) without any test that
    the dropped byte is zero. *)
Theorem decode_drops_pad_byte (pkg : package) (version : Z) (st : state)
    (wordlist data : list string) (p : string) (output : bytes) :
  loads pkg version st wordlist ->
  lower p = PADDING_WORD ->
  decode_loop wordlist (map lower data) [] = Ok output ->
  (~ (3 < len (data ++ [p])
      /\ getitem_neg (map lower (data ++ [p])) 3 = Ok CHECKSUM_WORD) ->
   fst (decode pkg (Words (data ++ [p])) version st)
   = Ok (slice_to_neg output 1))
  /\ (forall k word0 word1,
         lower k = CHECKSUM_WORD ->
         fst (decode pkg (Words (data ++ [p; k; word0; word1])) version st)
         = verify wordlist (lower word0) (lower word1) (slice_to_neg output 1)).
Proof.
  intros Hload Hp Hout. split.
  - intros Hno. rewrite (decode_loads pkg version st wordlist _ Hload).
    rewrite (decode_words_unstripped _ _ Hno).
    rewrite map_app. cbn [map]. rewrite Hp, decode_data_padded, Hout.
    reflexivity.
  - intros k word0 word1 Hk.
    rewrite (decode_loads pkg version st wordlist _ Hload).
    rewrite (decode_words_stripped wordlist _ (map lower data ++ [PADDING_WORD])
               (lower word0) (lower word1)).
    + rewrite decode_data_padded, Hout. reflexivity.
    + change (data ++ [p; k; word0; word1])
        with (data ++ [p] ++ [k; word0; word1]).
      rewrite app_assoc, !map_app. cbn [map]. now rewrite Hp, Hk.
    + intros H. apply app_eq_nil in H. destruct H; discriminate.
Qed.

Lemma decode_drops_pad_byte_witness :
  (~ (3 < len (["handset"] ++ ["NULL"])
      /\ getitem_neg (map lower (["handset"] ++ ["NULL"])) 3 = Ok CHECKSUM_WORD) ->
   fst (decode sample_package (Words (["handset"] ++ ["NULL"])) 1 fresh)
   = Ok (slice_to_neg [x74; x65] 1))
  /\ (forall k word0 word1,
         lower k = CHECKSUM_WORD ->
         fst (decode sample_package
                (Words (["handset"] ++ ["NULL"; k; word0; word1])) 1 fresh)
         = verify sample_wordlist (lower word0) (lower word1)
             (slice_to_neg [x74; x65] 1)).
Proof.
  apply (decode_drops_pad_byte sample_package 1 fresh sample_wordlist
           ["handset"] "NULL" [x74; x65]).
  - exact loads_fresh.
  - reflexivity.
  - change (map lower ["handset"]) with [sample_word 25972].
    cbn [decode_loop]. rewrite sample_word_to_chunk by easy. reflexivity.
Defined.

(** ** The checksum words *)

Lemma low_half (u : Z) :
  0 <= u < 2 ^ 32 ->
  chunk_index (byte_of_Z (u mod 256), byte_of_Z ((u / 256) mod 256))
  = u mod 65536.
Proof.
  intros Hu. unfold chunk_index. cbn [fst snd].
  rewrite !byte_to_of_Z by (apply Z.mod_pos_bound; lia).
  Z.div_mod_to_equations. lia.
Qed.

Lemma high_half (u : Z) :
  0 <= u < 2 ^ 32 ->
  chunk_index (byte_of_Z ((u / 65536) mod 256), byte_of_Z (u / 16777216))
  = u / 65536.
Proof.
  intros Hu. unfold chunk_index. cbn [fst snd].
  rewrite byte_to_of_Z by (apply Z.mod_pos_bound; lia).
  rewrite byte_to_of_Z by (Z.div_mod_to_equations; lia).
  Z.div_mod_to_equations. lia.
Qed.



Lemma crc32_test : crc32 [x74; x65; x73; x74] = -662733300.
Proof. vm_compute. reflexivity. Qed.




(** ** The CRC-32 tells two bytes from two others

    The shift of the register is linear over exclusive or and loses nothing
    on 32 bits, its top bit being the bit shifted out; so a change confined
    to two adjacent bytes always changes the checksum. *)

Lemma lxor_swap (a b c : Z) : Z.lxor (Z.lxor a b) c = Z.lxor (Z.lxor a c) b.
Proof.
  now rewrite Z.lxor_assoc, (Z.lxor_comm b c), <- Z.lxor_assoc.
Qed.

Lemma lxor_cancel_r (a b c : Z) : Z.lxor a c = Z.lxor b c -> a = b.
Proof.
  intros H. apply (f_equal (fun x => Z.lxor x c)) in H.
  now rewrite !Z.lxor_assoc, Z.lxor_nilpotent, !Z.lxor_0_r in H.
Qed.

Lemma odd_lxor (x y : Z) : Z.odd (Z.lxor x y) = xorb (Z.odd x) (Z.odd y).
Proof.
  rewrite <- !Z.bit0_odd. apply Z.lxor_spec.
Qed.

Lemma crc32_shift_lxor (x y : Z) :
  crc32_shift (Z.lxor x y) = Z.lxor (crc32_shift x) (crc32_shift y).
Proof.
  unfold crc32_shift. rewrite Z.shiftr_lxor, odd_lxor.
  apply Z.bits_inj'. intros n _. rewrite !Z.lxor_spec.
  destruct (Z.odd x), (Z.odd y); cbn [xorb];
    rewrite ?Z.bits_0;
    destruct (Z.testbit (Z.shiftr x 1) n), (Z.testbit (Z.shiftr y 1) n),
      (Z.testbit CRC32_POLY n); reflexivity.
Qed.

Lemma iter_crc32_shift_lxor (n : nat) (x y : Z) :
  Nat.iter n crc32_shift (Z.lxor x y)
  = Z.lxor (Nat.iter n crc32_shift x) (Nat.iter n crc32_shift y).
Proof.
  induction n as [|n IH]; [reflexivity|].
  now rewrite !iter_succ, IH, crc32_shift_lxor.
Qed.

Lemma iter_crc32_shift_0 (n : nat) : Nat.iter n crc32_shift 0 = 0.
Proof.
  induction n as [|n IH]; [reflexivity|].
  rewrite iter_succ, IH. reflexivity.
Qed.

Lemma testbit_32 (x : Z) : 0 <= x < 2 ^ 32 -> Z.testbit x 32 = false.
Proof.
  intros Hx. rewrite <- (Z.mod_small x (2 ^ 32)) by exact Hx.
  apply Z.mod_pow2_bits_high. lia.
Qed.

(** The top bit of the shifted register is the bit that was shifted out. *)
Lemma crc32_shift_top (x : Z) :
  0 <= x < 2 ^ 32 -> Z.testbit (crc32_shift x) 31 = Z.odd x.
Proof.
  intros Hx. unfold crc32_shift.
  rewrite Z.lxor_spec, Z.shiftr_spec by lia.
  change (31 + 1) with 32. rewrite (testbit_32 x Hx).
  destruct (Z.odd x); reflexivity.
Qed.

Lemma odd_half (x : Z) : x = 2 * Z.shiftr x 1 + Z.b2z (Z.odd x).
Proof.
  rewrite Z.shiftr_div_pow2 by lia. rewrite <- Z.bit0_odd, Z.bit0_mod.
  change (2 ^ 1) with 2. apply Z.div_mod. lia.
Qed.

Lemma crc32_shift_inj (x y : Z) :
  0 <= x < 2 ^ 32 -> 0 <= y < 2 ^ 32 ->
  crc32_shift x = crc32_shift y -> x = y.
Proof.
  intros Hx Hy E.
  assert (Ho : Z.odd x = Z.odd y).
  { rewrite <- (crc32_shift_top x Hx), <- (crc32_shift_top y Hy).
    now rewrite E. }
  unfold crc32_shift in E. rewrite Ho in E. apply lxor_cancel_r in E.
  rewrite (odd_half x), (odd_half y), E, Ho. reflexivity.
Qed.

Lemma iter_crc32_shift_inj (n : nat) (x y : Z) :
  0 <= x < 2 ^ 32 -> 0 <= y < 2 ^ 32 ->
  Nat.iter n crc32_shift x = Nat.iter n crc32_shift y -> x = y.
Proof.
  intros Hx Hy. induction n as [|n IH]; [easy|].
  rewrite !iter_succ. intros E. apply IH.
  apply crc32_shift_inj; [now apply iter_crc32_shift_range ..|exact E].
Qed.

Lemma byte_in_register (b : byte) : 0 <= byte_to_Z b < 2 ^ 32.
Proof. pose proof (byte_to_Z_range b). lia. Qed.

Lemma crc32_update_inj (c c' : Z) (b : byte) :
  0 <= c < 2 ^ 32 -> 0 <= c' < 2 ^ 32 ->
  crc32_update c b = crc32_update c' b -> c = c'.
Proof.
  intros Hc Hc' E. rewrite !crc32_update_eq in E.
  apply iter_crc32_shift_inj in E.
  - exact (lxor_cancel_r _ _ _ E).
  - apply lxor_range; [lia | exact Hc | apply byte_in_register].
  - apply lxor_range; [lia | exact Hc' | apply byte_in_register].
Qed.

Lemma fold_crc32_update_inj (data : bytes) :
  forall c c',
    0 <= c < 2 ^ 32 -> 0 <= c' < 2 ^ 32 ->
    fold_left crc32_update data c = fold_left crc32_update data c' -> c = c'.
Proof.
  induction data as [|b data IH]; intros c c' Hc Hc' E.
  - exact E.
  - rewrite !fold_left_cons in E. apply IH in E.
    + exact (crc32_update_inj c c' b Hc Hc' E).
    + now apply crc32_update_range.
    + now apply crc32_update_range.
Qed.

Lemma count_from_In_range (n : nat) (start x : Z) :
  start <= x < start + Z.of_nat n -> In x (count_from start n).
Proof.
  intros Hx. replace x with (start + Z.of_nat (Z.to_nat (x - start))) by lia.
  eapply nth_error_In. apply nth_error_count_from. lia.
Qed.

(** A byte that is not zero leaves the eight shifts with a bit above the
    low byte: the entries 1 to 255 of the CRC table, checked one by one. *)
Lemma crc32_table_high (d : Z) :
  1 <= d < 256 -> 256 <= Nat.iter 8 crc32_shift d.
Proof.
  intros Hd.
  assert (H : forallb (fun d => 256 <=? Nat.iter 8 crc32_shift d)
                (count_from 1 255) = true) by (vm_compute; reflexivity).
  apply Z.leb_le.
  apply (proj1 (forallb_forall _ _) H). apply count_from_In_range. lia.
Qed.

Ltac lxor_bits :=
  apply Z.bits_inj'; intros ? _; rewrite !Z.lxor_spec;
  repeat match goal with
         | |- context [Z.testbit ?x ?n] => destruct (Z.testbit x n)
         end;
  reflexivity.

Lemma byte_to_Z_inj (a b : byte) : byte_to_Z a = byte_to_Z b -> a = b.
Proof.
  intros H. rewrite <- (byte_of_to_Z a), <- (byte_of_to_Z b). now rewrite H.
Qed.

Lemma crc32_update_two (s : Z) (a b a' b' : byte) :
  0 <= s < 2 ^ 32 ->
  crc32_update (crc32_update s a) b = crc32_update (crc32_update s a') b' ->
  a = a' /\ b = b'.
Proof.
  intros Hs E.
  pose proof (crc32_update_range s a Hs) as HX.
  pose proof (crc32_update_range s a' Hs) as HX'.
  assert (EX : Z.lxor (crc32_update s a) (crc32_update s a')
               = Nat.iter 8 crc32_shift
                   (Z.lxor (byte_to_Z a) (byte_to_Z a'))).
  { rewrite !crc32_update_eq, <- iter_crc32_shift_lxor. f_equal.
    lxor_bits. }
  remember (crc32_update s a) as X eqn:EqX.
  remember (crc32_update s a') as X' eqn:EqX'.
  rewrite (crc32_update_eq X), (crc32_update_eq X') in E.
  apply iter_crc32_shift_inj in E;
    [|apply lxor_range; [lia | assumption | apply byte_in_register] ..].
  assert (EB : Z.lxor X X' = Z.lxor (byte_to_Z b) (byte_to_Z b')).
  { transitivity (Z.lxor (Z.lxor X (byte_to_Z b)) (Z.lxor X' (byte_to_Z b)));
      [lxor_bits|].
    rewrite E. lxor_bits. }
  rewrite EB in EX.
  pose proof (byte_to_Z_range a) as Ha. pose proof (byte_to_Z_range a') as Ha'.
  pose proof (byte_to_Z_range b) as Hb. pose proof (byte_to_Z_range b') as Hb'.
  pose proof (lxor_range 8 _ _ ltac:(lia) Ha Ha') as HD.
  pose proof (lxor_range 8 _ _ ltac:(lia) Hb Hb') as HE.
  change (2 ^ 8) with 256 in HD, HE.
  destruct (Z.eq_dec (Z.lxor (byte_to_Z a) (byte_to_Z a')) 0) as [D0|Dn].
  - rewrite D0, iter_crc32_shift_0 in EX.
    apply Z.lxor_eq in D0. apply Z.lxor_eq in EX.
    split; now apply byte_to_Z_inj.
  - assert (Htab : 256 <= Nat.iter 8 crc32_shift
                            (Z.lxor (byte_to_Z a) (byte_to_Z a')))
      by (apply crc32_table_high; lia).
    rewrite <- EX in Htab. lia.
Qed.

(** Two byte strings that differ in two adjacent bytes only have different
    checksums. *)
Lemma crc32_two_bytes (pre post : bytes) (a b a' b' : byte) :
  (a, b) <> (a', b') ->
  crc32 (pre ++ a :: b :: post) <> crc32 (pre ++ a' :: b' :: post).
Proof.
  intros Hne E. apply Hne.
  assert (Eu : crc32_unsigned (pre ++ a :: b :: post)
               = crc32_unsigned (pre ++ a' :: b' :: post)).
  { pose proof (crc32_unsigned_range (pre ++ a :: b :: post)) as Hu.
    pose proof (crc32_unsigned_range (pre ++ a' :: b' :: post)) as Hu'.
    unfold crc32 in E. cbv zeta in E. revert E Hu Hu'.
    generalize (crc32_unsigned (pre ++ a :: b :: post)).
    generalize (crc32_unsigned (pre ++ a' :: b' :: post)).
    intros u' u.
    destruct (Z.leb_spec (2 ^ 31) u); destruct (Z.leb_spec (2 ^ 31) u'); lia. }
  unfold crc32_unsigned in Eu. apply lxor_cancel_r in Eu.
  unfold crc32_register in Eu.
  rewrite !fold_left_app, !fold_left_cons in Eu.
  assert (Hs : 0 <= fold_left crc32_update pre 0xFFFFFFFF < 2 ^ 32)
    by (apply fold_crc32_update_range; lia).
  apply fold_crc32_update_inj in Eu;
    [|apply crc32_update_range; now apply crc32_update_range ..].
  destruct (crc32_update_two _ a b a' b' Hs Eu) as [-> ->]. reflexivity.
Qed.

(** ** One word of a checksummed encoding replaced *)

Lemma replace_at_middle {A : Type} (l1 l2 : list A) (x a : A) :
  replace_at (List.length l1) a (l1 ++ x :: l2) = l1 ++ a :: l2.
Proof.
  induction l1 as [|y l1 IH]; [reflexivity|].
  cbn [List.length app replace_at]. now rewrite IH.
Qed.

Lemma digit_inj (x y x' y' : Z) :
  0 <= x < 256 -> 0 <= x' < 256 -> x + 256 * y = x' + 256 * y' ->
  x = x' /\ y = y'.
Proof. intros Hx Hx' E. lia. Qed.

Lemma signed_inj (u v : Z) :
  0 <= u < 2 ^ 32 -> 0 <= v < 2 ^ 32 ->
  (if 2 ^ 31 <=? u then u - 2 ^ 32 else u)
  = (if 2 ^ 31 <=? v then v - 2 ^ 32 else v) -> u = v.
Proof.
  intros Hu Hv. destruct (Z.leb_spec (2 ^ 31) u);
    destruct (Z.leb_spec (2 ^ 31) v); lia.
Qed.

Lemma unpack_i_inj (a0 a1 a2 a3 b0 b1 b2 b3 : byte) :
  unpack_i [a0; a1; a2; a3] = unpack_i [b0; b1; b2; b3] ->
  a0 = b0 /\ a1 = b1 /\ a2 = b2 /\ a3 = b3.
Proof.
  unfold unpack_i. cbv zeta. intros E.
  assert (Ok_inj : forall x y : Z, @Ok Z x = Ok y -> x = y)
    by (intros x y Exy; congruence).
  apply Ok_inj in E. clear Ok_inj.
  pose proof (byte_to_Z_range a0). pose proof (byte_to_Z_range a1).
  pose proof (byte_to_Z_range a2). pose proof (byte_to_Z_range a3).
  pose proof (byte_to_Z_range b0). pose proof (byte_to_Z_range b1).
  pose proof (byte_to_Z_range b2). pose proof (byte_to_Z_range b3).
  apply signed_inj in E; [|lia ..].
  assert (E0 : byte_to_Z a0
                  + 256 * (byte_to_Z a1
                           + 256 * (byte_to_Z a2 + 256 * byte_to_Z a3))
                  = byte_to_Z b0
                    + 256 * (byte_to_Z b1
                             + 256 * (byte_to_Z b2 + 256 * byte_to_Z b3)))
       by lia.
  apply digit_inj in E0; try assumption. destruct E0 as [E0 E1].
  apply digit_inj in E1; try assumption. destruct E1 as [E1 E2].
  apply digit_inj in E2; try assumption. destruct E2 as [E2 E3].
  repeat split; now apply byte_to_Z_inj.
Qed.
Section Replaced.

Variable wordlist : list string.
Hypothesis Hsize : len wordlist = WORDLIST_SIZE.

(** Every word of the list is the word of a chunk. *)
Lemma In_word_of_chunk (w : string) :
  In w wordlist -> exists c, word_of_chunk wordlist c = w.
Proof.
  intros Hin. apply In_nth_error in Hin. destruct Hin as (j & Hj).
  assert (Hlt : (j < List.length wordlist)%nat)
    by (apply nth_error_Some; congruence).
  unfold len, WORDLIST_SIZE in Hsize.
  exists (byte_of_Z (Z.of_nat j mod 256), byte_of_Z (Z.of_nat j / 256)).
  unfold word_of_chunk, chunk_index. cbn [fst snd].
  rewrite !byte_to_of_Z by (Z.div_mod_to_equations; lia).
  replace (Z.of_nat j mod 256 + 256 * (Z.of_nat j / 256)) with (Z.of_nat j)
    by (Z.div_mod_to_equations; lia).
  rewrite Nat2Z.id. now apply nth_error_nth.
Qed.

Hypothesis Hnodup : NoDup wordlist.

Lemma word_of_chunk_inj (c c' : byte * byte) :
  word_of_chunk wordlist c = word_of_chunk wordlist c' -> c = c'.
Proof.
  intros E.
  pose proof (word_to_chunk_of_chunk wordlist Hsize Hnodup c) as H.
  rewrite E, (word_to_chunk_of_chunk wordlist Hsize Hnodup c') in H.
  injection H as H1 H2. destruct c, c'. cbn [fst snd] in *. congruence.
Qed.

(** The bytes around the chunk that a data word stands for. *)
Lemma chunk_context (d : bytes) (cs1 cs2 : list (byte * byte))
    (c : byte * byte) :
  (if (List.length d mod 2 =? 1)%nat then d ++ [x00] else d)
  = flat (cs1 ++ c :: cs2) ->
  (2 * List.length cs1 + 2 <= List.length d)%nat ->
  exists pre post,
    d = pre ++ fst c :: snd c :: post
    /\ forall c',
        (if (List.length d mod 2 =? 1)%nat
         then slice_to_neg (flat (cs1 ++ c' :: cs2)) 1
         else flat (cs1 ++ c' :: cs2))
        = pre ++ fst c' :: snd c' :: post.
Proof.
  intros E Hi.
  assert (Hflat : forall c', flat (cs1 ++ c' :: cs2)
                             = flat cs1 ++ fst c' :: snd c' :: flat cs2).
  { intros c'. now rewrite flat_app. }
  destruct (List.length d mod 2 =? 1)%nat.
  - assert (Hne : flat cs2 <> []).
    { intros Hnil. apply (f_equal (@List.length _)) in E.
      rewrite Hflat, Hnil, !length_app, length_flat in E.
      cbn [List.length] in E. lia. }
    destruct (exists_last Hne) as (post & z & Hpost).
    exists (flat cs1), post. split.
    + rewrite Hflat, Hpost in E.
      change (flat cs1 ++ fst c :: snd c :: post ++ [z])
        with (flat cs1 ++ [fst c; snd c] ++ post ++ [z]) in E.
      rewrite !app_assoc in E. apply app_inj_tail in E.
      destruct E as [-> _]. now rewrite <- !app_assoc.
    + intros c'. rewrite Hflat, Hpost.
      change (flat cs1 ++ fst c' :: snd c' :: post ++ [z])
        with (flat cs1 ++ [fst c'; snd c'] ++ post ++ [z]).
      rewrite !app_assoc, slice_to_neg_last. now rewrite <- !app_assoc.
  - exists (flat cs1), (flat cs2). split.
    + now rewrite E, Hflat.
    + intros c'. apply Hflat.
Qed.

End Replaced.

(** * Further properties of the module *)

(** ** Chunks to words and back *)

Lemma pack_H_inv (i : Z) (b0 b1 : byte) :
  pack_H i = Ok [b0; b1] -> i = chunk_index (b0, b1).
Proof.
  unfold pack_H, chunk_index. cbn [fst snd].
  destruct (Z.leb_spec 0 i); destruct (Z.leb_spec i 65535);
    cbn [andb]; try discriminate.
  intros E.
  assert (E0 : byte_of_Z (i mod 256) = b0) by congruence.
  assert (E1 : byte_of_Z (i / 256) = b1) by congruence.
  rewrite <- E0, <- E1.
  rewrite !byte_to_of_Z by (Z.div_mod_to_equations; lia).
  Z.div_mod_to_equations; lia.
Qed.

Lemma chunk_of_index (i : Z) :
  0 <= i <= 65535 ->
  chunk_index (byte_of_Z (i mod 256), byte_of_Z (i / 256)) = i.
Proof.
  intros Hi. unfold chunk_index. cbn [fst snd].
  rewrite !byte_to_of_Z by (Z.div_mod_to_equations; lia).
  Z.div_mod_to_equations; lia.
Qed.

(** X1: over a wordlist of 65536 words, looking up the word of a two-byte
    chunk and then the chunk of that word gives the chunk back for every
    chunk exactly when no word occurs twice in the list: the loader checks
    the size of the list, the round trip also needs its words distinct. *)
Theorem chunk_roundtrip_iff_NoDup (wordlist : list string) :
  len wordlist = WORDLIST_SIZE ->
  (NoDup wordlist
   <-> forall b0 b1 : byte,
         (word <- _chunk_to_word [b0; b1] wordlist ;;
          _word_to_chunk word wordlist) = Ok [b0; b1]).
Proof.
  intros Hsize. split.
  - intros Hnodup b0 b1. rewrite (chunk_to_word_total wordlist Hsize).
    cbn [bind].
    exact (word_to_chunk_of_chunk wordlist Hsize Hnodup (b0, b1)).
  - intros H.
    assert (Hindex : forall (i : nat) (w : string),
               nth_error wordlist i = Some w -> index w wordlist = Some i).
    { intros i w Hw.
      assert (Hlt : (i < List.length wordlist)%nat)
        by (apply nth_error_Some; congruence).
      unfold len, WORDLIST_SIZE in Hsize.
      pose proof (H (byte_of_Z (Z.of_nat i mod 256))
                    (byte_of_Z (Z.of_nat i / 256))) as Hi.
      rewrite (chunk_to_word_total wordlist Hsize) in Hi. cbn [bind] in Hi.
      unfold word_of_chunk in Hi.
      rewrite chunk_of_index, Nat2Z.id in Hi by lia.
      rewrite (nth_error_nth _ _ _ Hw) in Hi.
      unfold _word_to_chunk in Hi.
      destruct (index w wordlist) as [k|]; [|discriminate].
      unfold _int_to_bytes in Hi. apply pack_H_inv in Hi.
      rewrite chunk_of_index in Hi by lia. f_equal. lia. }
    apply NoDup_nth_error. intros i j Hi E.
    destruct (nth_error wordlist i) as [w|] eqn:Ew.
    + symmetry in E. apply Hindex in Ew, E. congruence.
    + apply nth_error_None in Ew. lia.
Qed.

Lemma chunk_roundtrip_iff_NoDup_witness :
  NoDup sample_wordlist
  <-> forall b0 b1 : byte,
        (word <- _chunk_to_word [b0; b1] sample_wordlist ;;
         _word_to_chunk word sample_wordlist) = Ok [b0; b1].
Proof.
  exact (chunk_roundtrip_iff_NoDup sample_wordlist sample_wordlist_size).
Defined.

(** X2: every word of a wordlist of at most 65536 words has a chunk of two
    bytes, and the lookup of that chunk gives a word equal to it. *)
Theorem word_chunk_word (wordlist : list string) (w : string) :
  len wordlist <= WORDLIST_SIZE ->
  In w wordlist ->
  exists b0 b1,
    _word_to_chunk w wordlist = Ok [b0; b1]
    /\ _chunk_to_word [b0; b1] wordlist = Ok w.
Proof.
  intros Hsize Hin. unfold _word_to_chunk.
  destruct (index w wordlist) as [i|] eqn:E.
  - pose proof (index_lt _ _ _ E) as Hlt.
    apply index_Some_nth in E.
    unfold len, WORDLIST_SIZE in Hsize.
    destruct (unpack_pack_H (Z.of_nat i)) as (b0 & b1 & Hp & Hu); [lia|].
    exists b0, b1. split; [exact Hp|].
    unfold _chunk_to_word, _bytes_to_int. rewrite Hu. cbn [bind].
    unfold getitem. now rewrite Nat2Z.id, E.
  - apply index_None_not_In in E. contradiction.
Qed.

Lemma word_chunk_word_witness :
  exists b0 b1,
    _word_to_chunk "handset" sample_wordlist = Ok [b0; b1]
    /\ _chunk_to_word [b0; b1] sample_wordlist = Ok "handset".
Proof.
  apply word_chunk_word.
  - rewrite sample_wordlist_size. lia.
  - apply sample_wordlist_In. exists 25972. split; [|reflexivity].
    unfold WORDLIST_SIZE. lia.
Defined.

(** X3: [_chunk_to_word] never raises the module's own error.  A chunk that
    is not of two bytes raises [struct.error]; a chunk whose index is past
    the end of the wordlist raises [NameError], because the handler of the
    [IndexError] formats its message with an unbound name; any other chunk
    gives the word at its index. *)
Theorem chunk_to_word_raises (chunk : bytes) (wordlist : list string) :
  (forall m, _chunk_to_word chunk wordlist <> Raise (HumanEncodingError m))
  /\ (List.length chunk <> 2%nat ->
      _chunk_to_word chunk wordlist = Raise struct_error)
  /\ (forall b0 b1,
         chunk = [b0; b1] ->
         _chunk_to_word chunk wordlist
         = if chunk_index (b0, b1) <? len wordlist
           then Ok (word_of_chunk wordlist (b0, b1))
           else Raise (NameError "word")).
Proof.
  assert (Htwo : forall b0 b1,
             _chunk_to_word [b0; b1] wordlist
             = if chunk_index (b0, b1) <? len wordlist
               then Ok (word_of_chunk wordlist (b0, b1))
               else Raise (NameError "word")).
  { intros b0 b1. unfold _chunk_to_word, _bytes_to_int, unpack_H.
    cbn [bind]. unfold getitem, word_of_chunk.
    change (byte_to_Z b0 + 256 * byte_to_Z b1) with (chunk_index (b0, b1)).
    pose proof (byte_to_Z_range b0). pose proof (byte_to_Z_range b1).
    assert (0 <= chunk_index (b0, b1))
      by (unfold chunk_index; cbn [fst snd]; lia).
    unfold len.
    destruct (Z.ltb_spec (chunk_index (b0, b1))
                (Z.of_nat (List.length wordlist))) as [Hlt|Hge].
    - destruct (nth_error wordlist (Z.to_nat (chunk_index (b0, b1))))
        as [w|] eqn:E.
      + now rewrite (nth_error_nth _ _ _ E).
      + apply nth_error_None in E. lia.
    - assert (E : nth_error wordlist (Z.to_nat (chunk_index (b0, b1))) = None)
        by (apply nth_error_None; lia).
      now rewrite E. }
  assert (Hshort : List.length chunk <> 2%nat ->
                   _chunk_to_word chunk wordlist = Raise struct_error).
  { intros Hlen. unfold _chunk_to_word, _bytes_to_int, unpack_H.
    destruct chunk as [|b0 [|b1 [|b2 rest]]]; try reflexivity.
    now contradiction Hlen. }
  split; [|split].
  - intros m.
    destruct (Nat.eq_dec (List.length chunk) 2) as [Hlen|Hlen].
    + destruct chunk as [|b0 [|b1 [|b2 rest]]]; try discriminate Hlen.
      rewrite Htwo. now destruct (chunk_index (b0, b1) <? len wordlist).
    + now rewrite (Hshort Hlen).
  - exact Hshort.
  - intros b0 b1 ->. apply Htwo.
Qed.

Lemma chunk_to_word_raises_witness :
  (forall m, _chunk_to_word [x02; x00] ["a"; "b"]
             <> Raise (HumanEncodingError m))
  /\ _chunk_to_word [x02] ["a"; "b"] = Raise struct_error
  /\ _chunk_to_word [x02; x00] ["a"; "b"] = Raise (NameError "word")
  /\ _chunk_to_word [x01; x00] ["a"; "b"] = Ok "b".
Proof.
  split; [|split; [|split]].
  - apply (chunk_to_word_raises [x02; x00] ["a"; "b"]).
  - apply (chunk_to_word_raises [x02] ["a"; "b"]). cbn. lia.
  - exact (proj2 (proj2 (chunk_to_word_raises [x02; x00] ["a"; "b"]))
             x02 x00 eq_refl).
  - exact (proj2 (proj2 (chunk_to_word_raises [x01; x00] ["a"; "b"]))
             x01 x00 eq_refl).
Defined.

(** X4: [_word_to_chunk] raises the module's error for an invalid word
    exactly when the word is not in the wordlist; a word of the list at a
    position of 65536 or more raises [struct.error] instead, and any other
    word gives the two bytes of the first position it occurs at. *)
Theorem word_to_chunk_raises (word : string) (wordlist : list string) :
  (_word_to_chunk word wordlist = Raise (HumanEncodingError (Invalid_word word))
   <-> ~ In word wordlist)
  /\ (forall before after,
         wordlist = before ++ word :: after -> ~ In word before ->
         _word_to_chunk word wordlist
         = if len before <? WORDLIST_SIZE
           then Ok [byte_of_Z (len before mod 256); byte_of_Z (len before / 256)]
           else Raise struct_error).
Proof.
  split.
  - split.
    + intros E. unfold _word_to_chunk in E.
      destruct (index word wordlist) as [i|] eqn:Ei.
      * unfold _int_to_bytes, pack_H in E.
        now destruct ((0 <=? Z.of_nat i) && (Z.of_nat i <=? 65535)).
      * now apply index_None_not_In.
    + intros Hin. unfold _word_to_chunk.
      apply index_None_not_In in Hin. now rewrite Hin.
  - intros before after -> Hb. unfold _word_to_chunk.
    assert (E : index word (before ++ word :: after)
                = Some (List.length before)).
    { clear - Hb. induction before as [|x before IH].
      - cbn [app index List.length]. now rewrite String.eqb_refl.
      - cbn [app index List.length].
        destruct (String.eqb_spec x word) as [->|Hx].
        + exfalso. apply Hb. now left.
        + rewrite IH; [reflexivity|]. intros Hin. apply Hb. now right. }
    rewrite E. unfold _int_to_bytes, pack_H, len, WORDLIST_SIZE.
    destruct (Z.ltb_spec (Z.of_nat (List.length before)) 65536);
      destruct (Z.leb_spec 0 (Z.of_nat (List.length before)));
      destruct (Z.leb_spec (Z.of_nat (List.length before)) 65535);
      cbn [andb]; try reflexivity; lia.
Qed.

Lemma word_to_chunk_raises_witness :
  (_word_to_chunk "c" ["a"; "b"; "b"]
   = Raise (HumanEncodingError (Invalid_word "c"))
   <-> ~ In "c" ["a"; "b"; "b"])
  /\ _word_to_chunk "b" ["a"; "b"; "b"] = Ok [x01; x00].
Proof.
  split.
  - apply (word_to_chunk_raises "c" ["a"; "b"; "b"]).
  - exact (proj2 (word_to_chunk_raises "b" ["a"; "b"; "b"])
             ["a"] ["b"] eq_refl
             ltac:(intros [H|[]]; discriminate H)).
Defined.

(** ** Integers and their two bytes *)

(** X5: [_int_to_bytes] packs exactly the integers from 0 to 65535, and
    [_bytes_to_int] gives each of them back; [_bytes_to_int] unpacks exactly
    the byte strings of length two, and [_int_to_bytes] gives each of them
    back.  Any other argument raises [struct.error]. *)
Theorem int_bytes_roundtrip :
  (forall i : Z,
      if (0 <=? i) && (i <=? 65535)
      then (b <- _int_to_bytes i ;; _bytes_to_int b) = Ok i
      else _int_to_bytes i = Raise struct_error)
  /\ (forall b : bytes,
         if (List.length b =? 2)%nat
         then (i <- _bytes_to_int b ;; _int_to_bytes i) = Ok b
         else _bytes_to_int b = Raise struct_error).
Proof.
  split.
  - intros i. unfold _int_to_bytes, _bytes_to_int.
    destruct (Z.leb_spec 0 i); destruct (Z.leb_spec i 65535); cbn [andb];
      try (unfold pack_H;
           destruct (Z.leb_spec 0 i); destruct (Z.leb_spec i 65535);
           cbn [andb]; try reflexivity; lia).
    destruct (unpack_pack_H i) as (b0 & b1 & -> & Hu); [lia|]. exact Hu.
  - intros b. unfold _int_to_bytes, _bytes_to_int.
    destruct b as [|b0 [|b1 [|b2 rest]]]; try reflexivity.
    cbn [List.length Nat.eqb].
    destruct (pack_unpack_H b0 b1) as (i & -> & _ & Hp). exact Hp.
Qed.

(** ** The cache between calls *)

(** The three ways a load ends. *)
Lemma lazily_load_wordlist_cases (pkg : package) (version : Z) (st : state) :
  (truthy (_wordlist st) = true
   /\ lazily_load_wordlist pkg version st = (Ok (_wordlist st), st))
  \/ (_wordlist st = []
      /\ exists m, lazily_load_wordlist pkg version st
                   = (Raise (HumanEncodingError m), st))
  \/ (_wordlist st = []
      /\ exists words,
           len words = WORDLIST_SIZE
           /\ lazily_load_wordlist pkg version st
              = (Ok words, {| _wordlist := words |})).
Proof.
  unfold lazily_load_wordlist.
  destruct (_wordlist st) as [|w0 cached]; cbn [truthy].
  - right.
    destruct (pkg version) as [[words|]|];
      [|left; split; [reflexivity|now eexists] ..].
    destruct words as [|w words]; cbn [truthy negb];
      [left; split; [reflexivity|now eexists]|].
    destruct (Z.eqb_spec (len (w :: words)) WORDLIST_SIZE) as [E|E];
      cbn [negb].
    + right. split; [reflexivity|]. now exists (w :: words).
    + left. split; [reflexivity|now eexists].
  - left. now split.
Qed.

(** X6: the cache is empty or holds 65536 words, and every call of
    [lazily_load_wordlist], [encode] and [decode] keeps it so.  A load that
    succeeds returns the list the cache then holds, of 65536 words; a load
    that fails found the cache empty and leaves the state as it was. *)
Theorem cache_invariant (pkg : package) (version : Z) (st : state) :
  cache_sized st ->
  cache_sized (snd (lazily_load_wordlist pkg version st))
  /\ (forall wordlist,
         fst (lazily_load_wordlist pkg version st) = Ok wordlist ->
         _wordlist (snd (lazily_load_wordlist pkg version st)) = wordlist
         /\ len wordlist = WORDLIST_SIZE)
  /\ (forall e,
         fst (lazily_load_wordlist pkg version st) = Raise e ->
         snd (lazily_load_wordlist pkg version st) = st /\ _wordlist st = [])
  /\ (forall binary_data checksum return_string,
         cache_sized
           (snd (encode pkg binary_data version checksum return_string st)))
  /\ (forall words, cache_sized (snd (decode pkg words version st))).
Proof.
  intros Hst.
  destruct (lazily_load_wordlist_cases pkg version st)
    as [(Hc & E)|[(Hc & m & E)|(Hc & words & Hw & E)]];
    unfold encode, decode; rewrite E; cbn [fst snd].
  - assert (Hlen : len (_wordlist st) = WORDLIST_SIZE).
    { destruct Hst as [Hst|Hst]; [|exact Hst].
      rewrite Hst in Hc. discriminate Hc. }
    repeat split; intros; try assumption; try discriminate;
      match goal with H : Ok _ = Ok _ |- _ => now injection H as <- end.
  - repeat split; intros; try assumption; discriminate.
  - assert (Hnew : cache_sized {| _wordlist := words |}) by now right.
    repeat split; intros; try assumption; try discriminate;
      match goal with H : Ok _ = Ok _ |- _ => now injection H as <- end.
Qed.

Lemma cache_invariant_witness :
  cache_sized (snd (lazily_load_wordlist sample_package 1 fresh))
  /\ (forall wordlist,
         fst (lazily_load_wordlist sample_package 1 fresh) = Ok wordlist ->
         _wordlist (snd (lazily_load_wordlist sample_package 1 fresh)) = wordlist
         /\ len wordlist = WORDLIST_SIZE)
  /\ (forall e,
         fst (lazily_load_wordlist sample_package 1 fresh) = Raise e ->
         snd (lazily_load_wordlist sample_package 1 fresh) = fresh
         /\ _wordlist fresh = [])
  /\ (forall binary_data checksum return_string,
         cache_sized
           (snd (encode sample_package binary_data 1 checksum return_string
                   fresh)))
  /\ (forall words, cache_sized (snd (decode sample_package words 1 fresh))).
Proof.
  apply (cache_invariant sample_package 1 fresh). left. reflexivity.
Defined.

(** ** The number of words *)

Lemma length_chunks (d : bytes) :
  List.length (chunks d) = (List.length d / 2)%nat.
Proof.
  induction d as [| |a b d IH] using list_ind2; try reflexivity.
  cbn [chunks List.length]. rewrite IH.
  change (S (S (List.length d))) with (2 + List.length d)%nat.
  pose proof (Nat.div_mod_eq (List.length d) 2).
  pose proof (Nat.div_mod_eq (2 + List.length d) 2).
  pose proof (Nat.mod_upper_bound (List.length d) 2).
  pose proof (Nat.mod_upper_bound (2 + List.length d) 2).
  lia.
Qed.

Lemma length_data_words (wordlist : list string) (d : bytes) :
  List.length (data_words wordlist d)
  = ((List.length d + 1) / 2 + List.length d mod 2)%nat.
Proof.
  unfold data_words.
  pose proof (Nat.div_mod_eq (List.length d) 2).
  pose proof (Nat.div_mod_eq (List.length d + 1) 2).
  pose proof (Nat.mod_upper_bound (List.length d) 2).
  pose proof (Nat.mod_upper_bound (List.length d + 1) 2).
  destruct (Nat.eqb_spec (List.length d mod 2) 1) as [E|E].
  - rewrite length_app, length_map, length_chunks, length_app.
    cbn [List.length]. lia.
  - rewrite length_map, length_chunks. lia.
Qed.



(** ** No call of [encode] returns *)



(** ** What [decode] raises *)

Section Raises.

Variable wordlist : list string.
Hypothesis Hsize : len wordlist = WORDLIST_SIZE.

Lemma decode_data_raises (words : list string) :
  words <> [] ->
  (exists output, decode_data wordlist words = Ok output)
  \/ (exists w, In w words /\ ~ In w wordlist
                /\ decode_data wordlist words
                   = Raise (HumanEncodingError (Invalid_word w))).
Proof.
  intros Hne. destruct (exists_last Hne) as (data & x & ->).
  destruct (String.eqb_spec x PADDING_WORD) as [->|Hx].
  - rewrite decode_data_padded.
    destruct (decode_loop_cases wordlist Hsize data [])
      as [[_ (out & ->)]|(w & Hin & Hw & ->)].
    + left. now eexists.
    + right. exists w. split; [apply in_or_app; now left|now split].
  - rewrite (decode_data_unpadded _ _ _ Hx).
    destruct (decode_loop_cases wordlist Hsize (data ++ [x]) [])
      as [[_ (out & ->)]|(w & Hin & Hw & ->)].
    + left. now eexists.
    + right. now exists w.
Qed.

Lemma verify_raises (word0 word1 : string) (output : bytes) :
  verify wordlist word0 word1 output = Ok output
  \/ verify wordlist word0 word1 output
     = Raise (HumanEncodingError Invalid_CRC32_checksum)
  \/ (exists w, (w = word0 \/ w = word1) /\ ~ In w wordlist
                /\ verify wordlist word0 word1 output
                   = Raise (HumanEncodingError (Invalid_word w))).
Proof.
  unfold verify.
  destruct (In_wordlist_dec wordlist word0) as [H0|H0].
  - destruct (word_to_chunk_In wordlist Hsize word0 H0) as (c0 & ->).
    cbn [bind].
    destruct (In_wordlist_dec wordlist word1) as [H1|H1].
    + destruct (word_to_chunk_In wordlist Hsize word1 H1) as (c1 & ->).
      cbn [bind app]. unfold unpack_i. cbv zeta. cbn [bind].
      match goal with
      | |- context [negb ?b] => destruct b
      end; cbn [negb]; auto.
    + right. right. exists word1. split; [now right|]. split; [exact H1|].
      now rewrite (word_to_chunk_not_In wordlist word1 H1).
  - right. right. exists word0. split; [now left|]. split; [exact H0|].
    now rewrite (word_to_chunk_not_In wordlist word0 H0).
Qed.

End Raises.

Lemma decode_words_raises (wordlist ws : list string) :
  len wordlist = WORDLIST_SIZE ->
  match decode_words wordlist ws with
  | Ok output => ws <> []
  | Raise IndexError => ws = []
  | Raise (HumanEncodingError (Invalid_word w)) =>
      In w (map lower ws) /\ ~ In w wordlist
  | Raise (HumanEncodingError Invalid_CRC32_checksum) =>
      3 < len ws /\ getitem_neg (map lower ws) 3 = Ok CHECKSUM_WORD
  | Raise _ => False
  end.
Proof.
  intros Hsize. destruct ws as [|x ws'].
  - now rewrite decode_words_nil.
  - remember (x :: ws') as ws eqn:Ews.
    assert (Hne : ws <> []) by (subst ws; discriminate).
    assert (Hnel : map lower ws <> []) by (subst ws; discriminate).
    clear Ews x ws'.
    destruct (Z.ltb_spec 3 (len ws)) as [Hlen|Hlen].
    + assert (Hlen' : 3 < len (map lower ws))
        by (unfold len in *; now rewrite length_map).
      destruct (last_three (map lower ws) Hlen')
        as (data & a & word0 & word1 & E & Hdata).
      assert (Hmarker : getitem_neg (map lower ws) 3 = Ok a)
        by (rewrite E; apply getitem_neg_third).
      destruct (String.eqb_spec a CHECKSUM_WORD) as [->|Ha].
      * rewrite (decode_words_stripped wordlist ws data word0 word1 E Hdata).
        destruct (decode_data_raises wordlist Hsize data Hdata)
          as [(out & ->)|(w & Hin & Hw & ->)]; cbn [bind].
        -- destruct (verify_raises wordlist Hsize word0 word1 out)
             as [-> |[-> |(w & Hin & Hw & ->)]].
           ++ exact Hne.
           ++ now split.
           ++ split; [|exact Hw]. rewrite E. apply in_or_app. right.
              destruct Hin as [-> | ->]; cbn [In]; auto.
        -- split; [|exact Hw]. rewrite E. apply in_or_app. now left.
      * rewrite decode_words_unstripped
          by (rewrite Hmarker; intros [_ Hc]; congruence).
        destruct (decode_data_raises wordlist Hsize (map lower ws) Hnel)
          as [(out & ->)|(w & Hin & Hw & ->)]; [exact Hne|now split].
    + rewrite decode_words_unstripped by lia.
      destruct (decode_data_raises wordlist Hsize (map lower ws) Hnel)
        as [(out & ->)|(w & Hin & Hw & ->)]; [exact Hne|now split].
Qed.

(** X9: with a wordlist of 65536 words loaded, [decode] raises [IndexError]
    exactly when its input, a list or the words of a string, has no word.
    For an input with a word it returns bytes or raises the module's own
    error, and no other: for an invalid word, which then is the lower-case
    form of a word of the input and is not in the wordlist, or for an invalid
    checksum, which takes a checksum marker three words from the end of more
    than three words. *)
Theorem decode_raises (pkg : package) (version : Z) (st : state)
    (wordlist : list string) (input : words) :
  loads pkg version st wordlist ->
  len wordlist = WORDLIST_SIZE ->
  let ws := match input with Str s => split s | Words l => l end in
  match fst (decode pkg input version st) with
  | Ok output => ws <> []
  | Raise IndexError => ws = []
  | Raise (HumanEncodingError (Invalid_word w)) =>
      In w (map lower ws) /\ ~ In w wordlist
  | Raise (HumanEncodingError Invalid_CRC32_checksum) =>
      3 < len ws /\ getitem_neg (map lower ws) 3 = Ok CHECKSUM_WORD
  | Raise _ => False
  end.
Proof.
  intros Hload Hsize ws. rewrite (decode_loads _ _ _ _ _ Hload).
  exact (decode_words_raises wordlist ws Hsize).
Qed.

Lemma decode_raises_witness :
  let ws := split "handset Zebra" in
  match fst (decode sample_package (Str "handset Zebra") 1 fresh) with
  | Ok output => ws <> []
  | Raise IndexError => ws = []
  | Raise (HumanEncodingError (Invalid_word w)) =>
      In w (map lower ws) /\ ~ In w sample_wordlist
  | Raise (HumanEncodingError Invalid_CRC32_checksum) =>
      3 < len ws /\ getitem_neg (map lower ws) 3 = Ok CHECKSUM_WORD
  | Raise _ => False
  end.
Proof.
  exact (decode_raises sample_package 1 fresh sample_wordlist
           (Str "handset Zebra") loads_fresh sample_wordlist_size).
Defined.

(** ** Encoding what [decode] returns *)

Lemma chunks_flat (cs : list (byte * byte)) : chunks (flat cs) = cs.
Proof.
  induction cs as [|[b0 b1] cs IH]; [reflexivity|].
  cbn [flat flat_map app fst snd chunks]. fold (flat cs). now rewrite IH.
Qed.

Section Canonical.

Variable wordlist : list string.
Hypothesis Hsize : len wordlist = WORDLIST_SIZE.

(** The chunk of a word of the list stands for a position of that word. *)
Lemma word_to_chunk_position (w : string) :
  In w wordlist ->
  exists c, _word_to_chunk w wordlist = Ok [fst c; snd c]
            /\ word_of_chunk wordlist c = w.
Proof.
  intros Hin. unfold _word_to_chunk.
  destruct (index w wordlist) as [i|] eqn:E.
  - pose proof (index_lt _ _ _ E) as Hlt. apply index_Some_nth in E.
    unfold len, WORDLIST_SIZE in Hsize.
    destruct (unpack_pack_H (Z.of_nat i)) as (b0 & b1 & Hp & Hu); [lia|].
    exists (b0, b1). split; [exact Hp|].
    apply pack_H_inv in Hp. unfold word_of_chunk.
    rewrite <- Hp, Nat2Z.id. now apply nth_error_nth.
  - apply index_None_not_In in E. contradiction.
Qed.

Lemma decode_loop_In (ws : list string) :
  Forall (fun w => In w wordlist) ws ->
  forall acc : bytes,
  exists cs, map (word_of_chunk wordlist) cs = ws
             /\ decode_loop wordlist ws acc = Ok (acc ++ flat cs).
Proof.
  induction 1 as [|w ws Hw _ IH]; intros acc.
  - exists []. split; [reflexivity|]. cbn [decode_loop flat flat_map].
    now rewrite app_nil_r.
  - destruct (word_to_chunk_position w Hw) as (c & Hc & Ew).
    destruct (IH (acc ++ [fst c; snd c])) as (cs & Ecs & Hcs).
    exists (c :: cs). split; [cbn [map]; now rewrite Ew, Ecs|].
    cbn [decode_loop]. rewrite Hc. cbn [bind]. rewrite Hcs.
    now rewrite <- app_assoc.
Qed.

End Canonical.

(** X10: with a wordlist of 65536 words loaded, a list of words of the
    wordlist, in lower case, that is not empty, does not end with the padding
    marker and has no checksum marker three words from its end, decodes to
    two bytes for each word, and the words that [encode] builds for these
    bytes, without checksum, are the words of the list again. *)
Theorem encoded_output_decode (pkg : package) (version : Z) (st : state)
    (wordlist ws : list string) :
  loads pkg version st wordlist ->
  len wordlist = WORDLIST_SIZE ->
  ws <> [] ->
  Forall (fun w => In w wordlist /\ lower w = w) ws ->
  getitem_neg ws 1 <> Ok PADDING_WORD ->
  ~ (3 < len ws /\ getitem_neg ws 3 = Ok CHECKSUM_WORD) ->
  exists output,
    fst (decode pkg (Words ws) version st) = Ok output
    /\ List.length output = (2 * List.length ws)%nat
    /\ encoded_output wordlist output false = Ok ws.
Proof.
  intros Hload Hsize Hne Hws Hpad Hchk.
  rewrite (decode_loads _ _ _ _ _ Hload).
  assert (Hlow : map lower ws = ws).
  { clear - Hws. induction Hws as [|w ws [_ Hw] _ IH]; [reflexivity|].
    cbn [map]. now rewrite Hw, IH. }
  assert (Hin : Forall (fun w => In w wordlist) ws).
  { eapply Forall_impl; [|exact Hws]. now intros w [Hw _]. }
  rewrite decode_words_unstripped by now rewrite Hlow.
  rewrite Hlow.
  destruct (decode_loop_In wordlist Hsize ws Hin []) as (cs & Ecs & Hcs).
  destruct (exists_last Hne) as (data & x & E).
  assert (Hx : x <> PADDING_WORD).
  { intros ->. apply Hpad. rewrite E. apply getitem_neg_last. }
  exists (flat cs). split; [|split].
  - rewrite E, (decode_data_unpadded _ _ _ Hx), <- E. exact Hcs.
  - now rewrite length_flat, <- Ecs, length_map.
  - rewrite (encoded_output_plain wordlist Hsize). unfold data_words.
    assert (Heven : (List.length (flat cs) mod 2 =? 1)%nat = false).
    { rewrite length_flat, Nat.mul_comm, Nat.Div0.mod_mul. reflexivity. }
    now rewrite Heven, chunks_flat, Ecs.
Qed.

Lemma encoded_output_decode_witness :
  exists output,
    fst (decode sample_package (Words ["handset"; "interview"]) 1 fresh)
    = Ok output
    /\ List.length output = 4%nat
    /\ encoded_output sample_wordlist output false
       = Ok ["handset"; "interview"].
Proof.
  apply (encoded_output_decode sample_package 1 fresh sample_wordlist
           ["handset"; "interview"]).
  - exact loads_fresh.
  - exact sample_wordlist_size.
  - discriminate.
  - apply Forall_cons; [split; [|reflexivity]|
                         apply Forall_cons; [split; [|reflexivity]|
                                             apply Forall_nil]].
    + apply sample_wordlist_In. exists 25972. split; [|reflexivity].
      unfold WORDLIST_SIZE. lia.
    + apply sample_wordlist_In. exists 29811. split; [|reflexivity].
      unfold WORDLIST_SIZE. lia.
  - discriminate.
  - intros [H _]. revert H. unfold len. cbn [List.length]. lia.
Defined.

(** ** A replaced word and the checksum *)

Lemma replace_at_app {A : Type} (l1 l2 : list A) (k : nat) (a : A) :
  replace_at (List.length l1 + k) a (l1 ++ l2) = l1 ++ replace_at k a l2.
Proof.
  induction l1 as [|y l1 IH]; [reflexivity|].
  cbn [List.length app replace_at Nat.add]. now rewrite IH.
Qed.

Lemma nil_or_last {A : Type} (l : list A) :
  l = [] \/ exists l' a, l = l' ++ [a].
Proof.
  induction l as [|a l' _] using rev_ind; [now left|right; now exists l', a].
Qed.

Lemma unpack_i_four (b0 b1 b2 b3 : byte) :
  exists x, unpack_i [b0; b1; b2; b3] = Ok x.
Proof. unfold unpack_i. now eexists. Qed.

Section Detected.

Variable wordlist : list string.
Hypothesis Hsize : len wordlist = WORDLIST_SIZE.
Hypothesis Hnodup : NoDup wordlist.

Lemma verify_of_chunks (c0 c1 : byte * byte) (out : bytes) :
  verify wordlist (word_of_chunk wordlist c0) (word_of_chunk wordlist c1) out
  = (checksum_unpacked <- unpack_i [fst c0; snd c0; fst c1; snd c1] ;;
     if negb (checksum_unpacked =? crc32 out)
     then Raise (HumanEncodingError Invalid_CRC32_checksum)
     else Ok out).
Proof.
  unfold verify.
  rewrite !(word_to_chunk_of_chunk wordlist Hsize Hnodup). reflexivity.
Qed.

(** Checksum words that are not those of the data do not verify. *)
Lemma verify_other_chunks (d : bytes) (b0 b1 b2 b3 : byte)
    (c0 c1 : byte * byte) :
  unpack_i [b0; b1; b2; b3] = Ok (crc32 d) ->
  (c0, c1) <> ((b0, b1), (b2, b3)) ->
  verify wordlist (word_of_chunk wordlist c0) (word_of_chunk wordlist c1) d
  = Raise (HumanEncodingError Invalid_CRC32_checksum).
Proof.
  intros Hu Hne. rewrite verify_of_chunks.
  destruct (unpack_i_four (fst c0) (snd c0) (fst c1) (snd c1)) as (x & Hx).
  rewrite Hx. cbn [bind].
  destruct (Z.eqb_spec x (crc32 d)) as [E|E]; [|reflexivity].
  exfalso. apply Hne. rewrite E, <- Hu in Hx.
  apply unpack_i_inj in Hx. destruct Hx as (E0 & E1 & E2 & E3).
  destruct c0, c1. cbn [fst snd] in *. congruence.
Qed.

(** The data words with one chunk of two data bytes changed decode to the
    data with these two bytes changed. *)
Lemma decode_data_changed (d : bytes) (cs1 cs2 : list (byte * byte))
    (c c' : byte * byte) :
  (if (List.length d mod 2 =? 1)%nat then d ++ [x00] else d)
  = flat (cs1 ++ c :: cs2) ->
  (2 * List.length cs1 + 2 <= List.length d)%nat ->
  ((List.length d mod 2 =? 1)%nat = false ->
   getitem_neg (data_words wordlist d) 1 <> Ok PADDING_WORD) ->
  word_of_chunk wordlist c' <> PADDING_WORD ->
  exists pre post,
    d = pre ++ fst c :: snd c :: post
    /\ decode_data wordlist
         (map (word_of_chunk wordlist) (cs1 ++ c' :: cs2)
          ++ if (List.length d mod 2 =? 1)%nat then [PADDING_WORD] else [])
       = Ok (pre ++ fst c' :: snd c' :: post).
Proof.
  intros E Hi Hpad Hw'.
  destruct (chunk_context d cs1 cs2 c E Hi) as (pre & post & Hd & Hout).
  exists pre, post. split; [exact Hd|].
  specialize (Hout c'). unfold data_words in Hpad.
  destruct (List.length d mod 2 =? 1)%nat eqn:Eodd.
  - rewrite decode_data_padded.
    rewrite (decode_loop_words wordlist Hsize Hnodup). cbn [bind app].
    now rewrite Hout.
  - rewrite app_nil_r. specialize (Hpad eq_refl).
    rewrite <- Hout.
    assert (Hflat : chunks d = cs1 ++ c :: cs2)
      by (rewrite E; apply chunks_flat).
    rewrite Hflat in Hpad.
    destruct (nil_or_last cs2) as [->|(cs2' & z & ->)].
    + rewrite map_app. cbn [map].
      rewrite (decode_data_unpadded _ _ _ Hw').
      change [word_of_chunk wordlist c']
        with (map (word_of_chunk wordlist) [c']).
      rewrite <- map_app.
      now rewrite (decode_loop_words wordlist Hsize Hnodup).
    + assert (Hz : word_of_chunk wordlist z <> PADDING_WORD).
      { intros Hz. apply Hpad.
        change (cs1 ++ c :: cs2' ++ [z]) with (cs1 ++ (c :: cs2') ++ [z]).
        rewrite app_assoc, map_app. cbn [map]. rewrite Hz.
        apply getitem_neg_last. }
      change (cs1 ++ c' :: cs2' ++ [z]) with (cs1 ++ (c' :: cs2') ++ [z]).
      rewrite app_assoc, map_app. cbn [map].
      rewrite (decode_data_unpadded _ _ _ Hz).
      change [word_of_chunk wordlist z]
        with (map (word_of_chunk wordlist) [z]).
      rewrite <- map_app.
      now rewrite (decode_loop_words wordlist Hsize Hnodup).
Qed.

End Detected.

Lemma data_words_not_nil (wordlist : list string) (d : bytes) :
  d <> [] -> data_words wordlist d <> [].
Proof.
  intros Hne Hnil. apply (f_equal (@List.length _)) in Hnil.
  rewrite length_data_words in Hnil. cbn [List.length] in Hnil.
  destruct d as [|b d]; [now apply Hne|]. cbn [List.length] in Hnil.
  pose proof (Nat.div_mod_eq (S (List.length d) + 1) 2).
  pose proof (Nat.mod_upper_bound (S (List.length d) + 1) 2).
  lia.
Qed.

Lemma lower_words_of_chunks (wordlist : list string)
    (cs : list (byte * byte)) :
  len wordlist = WORDLIST_SIZE ->
  Forall (fun w => lower w = w) wordlist ->
  map lower (map (word_of_chunk wordlist) cs)
  = map (word_of_chunk wordlist) cs.
Proof.
  intros Hsize Hlow. induction cs as [|c cs IH]; [reflexivity|].
  cbn [map]. rewrite IH. f_equal.
  exact (proj1 (Forall_forall _ _) Hlow _ (word_of_chunk_In wordlist Hsize c)).
Qed.

(** X11: in the words that [encode] builds with a checksum for data that is
    not empty, over a wordlist of 65536 distinct lower-case words, replacing
    a word that stands for two bytes of the data, or one of the two checksum
    words, by another word of the wordlist that is not the padding marker
    makes [decode] raise the module's error for an invalid checksum. *)
Theorem replaced_word_detected (pkg : package) (version : Z) (st : state)
    (wordlist : list string) (binary_data : bytes) (ws : list string)
    (i : nat) (w w' : string) :
  loads pkg version st wordlist ->
  len wordlist = WORDLIST_SIZE ->
  NoDup wordlist ->
  Forall (fun w => lower w = w) wordlist ->
  binary_data <> [] ->
  unambiguous wordlist binary_data true ->
  encoded_output wordlist binary_data true = Ok ws ->
  nth_error ws i = Some w ->
  In w' wordlist ->
  w' <> w ->
  w' <> PADDING_WORD ->
  (2 * i + 2 <= List.length binary_data)%nat
  \/ (List.length ws - 2 <= i)%nat ->
  fst (decode pkg (Words (replace_at i w' ws)) version st)
  = Raise (HumanEncodingError Invalid_CRC32_checksum).
Proof.
  intros Hload Hsize Hnodup Hlow Hne Hun Henc Hnth Hin' Hneq Hnp Hpos.
  rewrite (decode_loads _ _ _ _ _ Hload).
  destruct (encoded_output_checksum wordlist Hsize binary_data)
    as (b0 & b1 & b2 & b3 & _ & Hu & E).
  rewrite E in Henc. injection Henc as <-.
  assert (Hpad : (List.length binary_data mod 2 =? 1)%nat = false ->
                 getitem_neg (data_words wordlist binary_data) 1
                 <> Ok PADDING_WORD).
  { apply (Hun (data_words wordlist binary_data)).
    apply (encoded_output_plain wordlist Hsize). }
  destruct (In_word_of_chunk wordlist Hsize w' Hin') as (c' & <-).
  assert (Hl0 : lower (word_of_chunk wordlist (b0, b1))
                = word_of_chunk wordlist (b0, b1))
    by exact (proj1 (Forall_forall _ _) Hlow _
                (word_of_chunk_In wordlist Hsize _)).
  assert (Hl1 : lower (word_of_chunk wordlist (b2, b3))
                = word_of_chunk wordlist (b2, b3))
    by exact (proj1 (Forall_forall _ _) Hlow _
                (word_of_chunk_In wordlist Hsize _)).
  assert (Hl' : lower (word_of_chunk wordlist c') = word_of_chunk wordlist c')
    by exact (proj1 (Forall_forall _ _) Hlow _ Hin').
  destruct Hpos as [Hdata|Hchk].
  - (* a word of two data bytes *)
    assert (Hflat : exists cs,
               (if (List.length binary_data mod 2 =? 1)%nat
                then binary_data ++ [x00] else binary_data) = flat cs
               /\ data_words wordlist binary_data
                  = map (word_of_chunk wordlist) cs
                    ++ if (List.length binary_data mod 2 =? 1)%nat
                       then [PADDING_WORD] else []).
    { unfold data_words.
      destruct (List.length binary_data mod 2 =? 1)%nat eqn:Eodd.
      - exists (chunks (binary_data ++ [x00])).
        split; [now rewrite (odd_length_flat _ Eodd)|reflexivity].
      - exists (chunks binary_data).
        split; [now rewrite (even_length_flat _ Eodd)|].
        now rewrite app_nil_r. }
    destruct Hflat as (cs & Hcs & Hdw).
    assert (Hlen : (i < List.length cs)%nat).
    { apply (f_equal (@List.length _)) in Hcs. rewrite length_flat in Hcs.
      destruct (List.length binary_data mod 2 =? 1)%nat;
        [rewrite length_app in Hcs; cbn [List.length] in Hcs|]; lia. }
    destruct (nth_error cs i) as [c|] eqn:Ec;
      [|apply nth_error_None in Ec; lia].
    apply nth_error_split in Ec. destruct Ec as (cs1 & cs2 & -> & Hi).
    assert (Hmid : forall x : byte * byte,
               map (word_of_chunk wordlist) (cs1 ++ x :: cs2)
               = map (word_of_chunk wordlist) cs1
                 ++ word_of_chunk wordlist x
                    :: map (word_of_chunk wordlist) cs2)
      by (intros x; now rewrite map_app).
    assert (Hi' : List.length (map (word_of_chunk wordlist) cs1) = i)
      by now rewrite length_map.
    rewrite Hdw, Hmid, <- !app_assoc in Hnth. cbn [app] in Hnth.
    rewrite <- Hi', nth_error_app2, Nat.sub_diag in Hnth by lia.
    cbn [nth_error] in Hnth. injection Hnth as <-.
    assert (Hc : (fst c, snd c) <> (fst c', snd c')).
    { intros Hc. apply Hneq. destruct c, c'. cbn [fst snd] in Hc.
      now rewrite Hc. }
    rewrite Hdw, Hmid, <- !app_assoc. cbn [app].
    rewrite <- Hi', replace_at_middle.
    destruct (decode_data_changed wordlist Hsize Hnodup binary_data
                cs1 cs2 c c' Hcs ltac:(lia) Hpad Hnp)
      as (pre & post & Hd & Hout).
    rewrite (decode_words_stripped wordlist _
               (map (word_of_chunk wordlist) (cs1 ++ c' :: cs2)
                ++ if (List.length binary_data mod 2 =? 1)%nat
                   then [PADDING_WORD] else [])
               (word_of_chunk wordlist (b0, b1))
               (word_of_chunk wordlist (b2, b3))).
    + rewrite Hout. cbn [bind].
      rewrite (verify_checksum wordlist Hsize Hnodup binary_data _
                 b0 b1 b2 b3 Hu).
      rewrite Hd at 1.
      destruct (Z.eqb_spec (crc32 (pre ++ fst c :: snd c :: post))
                  (crc32 (pre ++ fst c' :: snd c' :: post))) as [Ecrc|_];
        [|reflexivity].
      exfalso. exact (crc32_two_bytes pre post _ _ _ _ Hc Ecrc).
    + rewrite Hmid, <- !app_assoc. cbn [app].
      rewrite !map_app. cbn [map]. rewrite !map_app. cbn [map].
      rewrite !(lower_words_of_chunks wordlist _ Hsize Hlow), Hl', Hl0, Hl1.
      now destruct (List.length binary_data mod 2 =? 1)%nat.
    + rewrite Hmid. intros Hnil. apply app_eq_nil in Hnil.
      destruct Hnil as [Hnil _]. apply app_eq_nil in Hnil.
      destruct Hnil as [_ Hnil]. discriminate Hnil.
  - (* a checksum word *)
    assert (Hlt : (i < List.length (data_words wordlist binary_data
                                    ++ [CHECKSUM_WORD;
                                        word_of_chunk wordlist (b0, b1);
                                        word_of_chunk wordlist (b2, b3)]))%nat)
      by (apply nth_error_Some; congruence).
    rewrite length_app in Hlt, Hchk. cbn [List.length] in Hlt, Hchk.
    assert (Hdec : decode_data wordlist (data_words wordlist binary_data)
                   = Ok binary_data)
      by exact (decode_data_data_words wordlist Hsize Hnodup binary_data
                  Hne Hpad).
    assert (Hi : i = (List.length (data_words wordlist binary_data) + 1)%nat
                 \/ i = (List.length (data_words wordlist binary_data) + 2)%nat)
      by lia.
    destruct Hi as [-> | ->]; rewrite nth_error_app2 in Hnth by lia.
    + replace (List.length (data_words wordlist binary_data) + 1
               - List.length (data_words wordlist binary_data))%nat
        with 1%nat in Hnth by lia.
      cbn [nth_error] in Hnth. injection Hnth as <-.
      rewrite replace_at_app. cbn [replace_at].
      rewrite (decode_words_stripped wordlist _
                 (data_words wordlist binary_data)
                 (word_of_chunk wordlist c')
                 (word_of_chunk wordlist (b2, b3))).
      * rewrite Hdec. cbn [bind].
        apply (verify_other_chunks wordlist Hsize Hnodup binary_data
                 b0 b1 b2 b3 c' (b2, b3) Hu).
        intros Hc. apply Hneq. congruence.
      * rewrite map_app, (lower_data_words wordlist Hsize _ Hlow).
        cbn [map]. now rewrite Hl', Hl1.
      * now apply data_words_not_nil.
    + replace (List.length (data_words wordlist binary_data) + 2
               - List.length (data_words wordlist binary_data))%nat
        with 2%nat in Hnth by lia.
      cbn [nth_error] in Hnth. injection Hnth as <-.
      rewrite replace_at_app. cbn [replace_at].
      rewrite (decode_words_stripped wordlist _
                 (data_words wordlist binary_data)
                 (word_of_chunk wordlist (b0, b1))
                 (word_of_chunk wordlist c')).
      * rewrite Hdec. cbn [bind].
        apply (verify_other_chunks wordlist Hsize Hnodup binary_data
                 b0 b1 b2 b3 (b0, b1) c' Hu).
        intros Hc. apply Hneq. congruence.
      * rewrite map_app, (lower_data_words wordlist Hsize _ Hlow).
        cbn [map]. now rewrite Hl', Hl0.
      * now apply data_words_not_nil.
Qed.

Lemma encoded_output_test_checksum :
  encoded_output sample_wordlist [x74; x65; x73; x74] true
  = Ok ["handset"; "interview"; "check"; "laughingly"; "sterility"].
Proof.
  assert (Hp : pack_i (crc32 [x74; x65; x73; x74]) = Ok [x0c; x7e; x7f; xd8])
    by (rewrite crc32_test; reflexivity).
  destruct (encoded_output_checksum _ sample_wordlist_size
              [x74; x65; x73; x74])
    as (b0 & b1 & b2 & b3 & Hp' & _ & ->).
  rewrite Hp in Hp'. injection Hp' as <- <- <- <-.
  unfold data_words.
  cbn [List.length Nat.modulo Nat.divmod Nat.eqb snd Nat.sub chunks map].
  rewrite !sample_word_of_chunk. reflexivity.
Qed.

Lemma replaced_word_detected_witness :
  fst (decode sample_package
         (Words (replace_at 0 "abilene"
                   ["handset"; "interview"; "check"; "laughingly";
                    "sterility"]))
         1 fresh)
  = Raise (HumanEncodingError Invalid_CRC32_checksum).
Proof.
  apply (replaced_word_detected sample_package 1 fresh sample_wordlist
           [x74; x65; x73; x74] _ 0 "handset" "abilene").
  - exact loads_fresh.
  - exact sample_wordlist_size.
  - exact sample_wordlist_NoDup.
  - exact sample_wordlist_lower.
  - discriminate.
  - apply (markers_absent_unambiguous _ sample_wordlist_size).
    + exact (proj1 sample_wordlist_markers).
    + exact (proj2 sample_wordlist_markers).
  - exact encoded_output_test_checksum.
  - reflexivity.
  - apply sample_wordlist_In. exists 97. split; [|reflexivity].
    unfold WORDLIST_SIZE. lia.
  - discriminate.
  - discriminate.
  - left. cbn [List.length]. lia.
Defined.

(** ** The words of a string *)

Lemma split_from_blank (s : string) :
  forall rest : string,
    blank s = true -> split_from "" (s ++ rest) = split_from "" rest.
Proof.
  induction s as [|c s IH]; intros rest Hs; [reflexivity|].
  cbn [blank] in Hs. apply andb_true_iff in Hs. destruct Hs as [Hc Hs].
  change (String c s ++ rest)%string with (String c (s ++ rest)%string).
  cbn [split_from]. rewrite Hc. now apply IH.
Qed.

Lemma split_from_separator (sep cur rest : string) :
  blank sep = true -> sep <> "" -> cur <> "" ->
  split_from cur (sep ++ rest) = cur :: split_from "" rest.
Proof.
  intros Hs Hsep Hcur. destruct sep as [|c sep]; [contradiction|].
  cbn [blank] in Hs. apply andb_true_iff in Hs. destruct Hs as [Hc Hs].
  change (String c sep ++ rest)%string with (String c (sep ++ rest)%string).
  cbn [split_from]. rewrite Hc.
  destruct cur; [contradiction|]. now rewrite (split_from_blank sep rest Hs).
Qed.

Lemma split_from_end (cur pad : string) :
  blank pad = true -> cur <> "" -> split_from cur pad = [cur].
Proof.
  intros Hp Hcur. destruct pad as [|c pad].
  - cbn [split_from]. now destruct cur.
  - rewrite <- (append_nil_r (String c pad)).
    rewrite (split_from_separator (String c pad) cur "" Hp); [|discriminate|exact Hcur].
    reflexivity.
Qed.

Lemma split_join_blank (sep pad' : string) (ws : list string) :
  blank sep = true -> sep <> "" -> blank pad' = true ->
  Forall (fun w => split w = [w]) ws ->
  split_from "" (join sep ws ++ pad') = ws.
Proof.
  intros Hs Hsep Hp. induction ws as [|w ws IH]; intros Hall.
  - unfold join. cbn [String.concat].
    change ("" ++ pad')%string with pad'.
    rewrite <- (append_nil_r pad'). now rewrite split_from_blank.
  - inversion Hall as [|? ? Hw Hws]; subst.
    destruct (split_self w Hw) as [Hns Hne].
    destruct ws as [|w' ws].
    + unfold join. cbn [String.concat].
      rewrite (split_from_append w "" _ Hns).
      change ("" ++ w)%string with w. now apply split_from_end.
    + unfold join in *. cbn [String.concat].
      rewrite !append_assoc, (split_from_append w "" _ Hns).
      change ("" ++ w)%string with w.
      rewrite (split_from_separator sep w _ Hs Hsep Hne).
      f_equal. exact (IH Hws).
Qed.



(** ** The case of the letters *)

Lemma ascii_lower_idempotent (c : ascii) :
  ascii_lower (ascii_lower c) = ascii_lower c.
Proof.
  destruct c as [[] [] [] [] [] [] [] []]; reflexivity.
Qed.

Lemma is_space_ascii_lower (c : ascii) : is_space (ascii_lower c) = is_space c.
Proof.
  destruct c as [[] [] [] [] [] [] [] []]; reflexivity.
Qed.

Lemma lower_idempotent (s : string) : lower (lower s) = lower s.
Proof.
  induction s as [|c s IH]; [reflexivity|].
  cbn [lower]. now rewrite ascii_lower_idempotent, IH.
Qed.

Lemma lower_append (s t : string) :
  lower (s ++ t) = (lower s ++ lower t)%string.
Proof.
  induction s as [|c s IH]; [reflexivity|].
  cbn [lower String.append]. now rewrite IH.
Qed.

Lemma split_from_lower (s : string) :
  forall cur : string,
    split_from (lower cur) (lower s) = map lower (split_from cur s).
Proof.
  induction s as [|c s IH]; intros cur.
  - cbn [lower split_from]. now destruct cur.
  - cbn [lower split_from]. rewrite is_space_ascii_lower.
    destruct (is_space c).
    + destruct cur as [|c0 cur].
      * exact (IH "").
      * cbn [lower map]. f_equal. exact (IH "").
    + rewrite <- (IH (cur ++ String c "")%string), lower_append.
      reflexivity.
Qed.

Lemma decode_words_lower (wordlist ws : list string) :
  decode_words wordlist (map lower ws) = decode_words wordlist ws.
Proof.
  unfold decode_words.
  assert (E : map lower (map lower ws) = map lower ws).
  { rewrite map_map. apply map_ext. intros w. apply lower_idempotent. }
  now rewrite E.
Qed.

(** X13: [decode] does not tell the case of the letters of its input: a
    string and its lower-case form decode alike, and so do a list of words
    and the list of their lower-case forms, in the result and in the
    state. *)
Theorem decode_case_insensitive (pkg : package) (version : Z) (st : state) :
  (forall s : string,
      decode pkg (Str (lower s)) version st = decode pkg (Str s) version st)
  /\ (forall ws : list string,
         decode pkg (Words (map lower ws)) version st
         = decode pkg (Words ws) version st).
Proof.
  split.
  - intros s. unfold decode, split.
    destruct (lazily_load_wordlist pkg version st) as [[wordlist|e] st'];
      [|reflexivity].
    change (split_from "" (lower s)) with (split_from (lower "") (lower s)).
    now rewrite split_from_lower, decode_words_lower.
  - intros ws. unfold decode.
    destruct (lazily_load_wordlist pkg version st) as [[wordlist|e] st'];
      [|reflexivity].
    now rewrite decode_words_lower.
Qed.

(** ** Encoding piece by piece *)

Lemma chunks_app (a b : bytes) :
  (List.length a mod 2 = 0)%nat -> chunks (a ++ b) = chunks a ++ chunks b.
Proof.
  induction a as [| |x y a IH] using list_ind2; intros Ha.
  - reflexivity.
  - discriminate Ha.
  - cbn [app chunks]. f_equal. apply IH.
    cbn [List.length] in Ha.
    change (S (S (List.length a))) with (2 + List.length a)%nat in Ha.
    pose proof (Nat.div_mod_eq (List.length a) 2).
    pose proof (Nat.div_mod_eq (2 + List.length a) 2).
    pose proof (Nat.mod_upper_bound (List.length a) 2).
    lia.
Qed.

Lemma length_app_mod2 (a b : bytes) :
  (List.length a mod 2 = 0)%nat ->
  (List.length (a ++ b) mod 2 = List.length b mod 2)%nat.
Proof.
  intros Ha. rewrite length_app.
  pose proof (Nat.div_mod_eq (List.length a) 2).
  pose proof (Nat.div_mod_eq (List.length b) 2).
  pose proof (Nat.div_mod_eq (List.length a + List.length b) 2).
  pose proof (Nat.mod_upper_bound (List.length b) 2).
  pose proof (Nat.mod_upper_bound (List.length a + List.length b) 2).
  lia.
Qed.



(** ** Different data, different words *)



(** ** The word before the padding marker *)

(** Two byte strings that differ in their last byte only have different
    checksums. *)
Lemma crc32_last_byte (pre : bytes) (a a' : byte) :
  a <> a' -> crc32 (pre ++ [a]) <> crc32 (pre ++ [a']).
Proof.
  intros Hne E. apply Hne.
  assert (Eu : crc32_unsigned (pre ++ [a]) = crc32_unsigned (pre ++ [a'])).
  { pose proof (crc32_unsigned_range (pre ++ [a])) as Hu.
    pose proof (crc32_unsigned_range (pre ++ [a'])) as Hu'.
    unfold crc32 in E. cbv zeta in E.
    exact (signed_inj _ _ Hu Hu' E). }
  unfold crc32_unsigned in Eu. apply lxor_cancel_r in Eu.
  unfold crc32_register in Eu.
  rewrite !fold_left_app, !fold_left_cons, !fold_left_nil in Eu.
  assert (Hs : 0 <= fold_left crc32_update pre 0xFFFFFFFF < 2 ^ 32)
    by (apply fold_crc32_update_range; lia).
  rewrite !crc32_update_eq in Eu.
  apply iter_crc32_shift_inj in Eu;
    [|apply lxor_range; [lia|exact Hs|apply byte_in_register] ..].
  rewrite (Z.lxor_comm _ (byte_to_Z a)), (Z.lxor_comm _ (byte_to_Z a')) in Eu.
  apply lxor_cancel_r in Eu. now apply byte_to_Z_inj.
Qed.


